(** * Referral rewards processor: a shallow embedding and its properties

    The development follows [referral-rewards-processor.js]: the retrying
    request executor ([sendRequestWithRetry]), the report poller
    ([pollReferralReport]), the ledger gate ([checkIfAlreadyProcessed],
    [updateSupabaseRecord]), the reward issuer ([rewardGivingMember]), the
    location resolver ([getLocationIdFromName]) and the loop of
    [processReferralRewards] over the report, then the candidate query
    ([fetchCustomersWithOneVisit]), the start of the report
    ([initiateReferralReport]) and the identifiers ([generateGuid]).  The
    ledger table and its trigger follow the SQL schema shipped with the
    repository.

    The collaborators are modelled by what the code can observe of them:
    the HTTP exchange met by each attempt of a request, the fault (if any)
    the ledger service answers a call with, and the ledger table itself.
    Every call that leaves the process is appended to a trace.

    Wall-clock matters are left out: request timeouts, timestamps and the
    pause between two records.  The executor and the poller record each
    delay they ask for as a number of milliseconds. *)

From Stdlib Require Import Ascii.
From stdpp Require Import gmap strings list.

Set Default Proof Using "Type".

(** ** JavaScript values that matter here *)

Module Js.

(** A value read out of a plain object used as a table of numbers:
    [undefined], a number, or a member inherited from [Object.prototype]
    (a function, or the prototype object itself for [__proto__]). *)
Inductive value :=
| Undefined
| Number (n : Z)
| Inherited (name : string).

#[global] Instance value_eq_dec : EqDecision value.
Proof. solve_decision. Defined.

Definition truthy (v : value) : bool :=
  match v with
  | Undefined => false
  | Number n => negb (n =? 0)%Z
  | Inherited _ => true
  end.

(** [a || b] *)
Definition or (a b : value) : value := if truthy a then a else b.

(** [n || d] for a possibly absent number [n] and a numeric default. *)
Definition or_num (n : option Z) (d : Z) : Z :=
  match n with
  | Some k => if (k =? 0)%Z then d else k
  | None => d
  end.

(** The property names every object literal inherits from
    [Object.prototype]. *)
Definition object_prototype_keys : list string :=
  [ "constructor"; "__defineGetter__"; "__defineSetter__"; "hasOwnProperty";
    "__lookupGetter__"; "__lookupSetter__"; "isPrototypeOf";
    "propertyIsEnumerable"; "toString"; "valueOf"; "__proto__";
    "toLocaleString" ]%string.

(** [obj[key]] for an object literal whose own properties are [own]:
    own properties first, then the prototype chain. *)
Definition get (own : gmap string Z) (key : string) : value :=
  match own !! key with
  | Some n => Number n
  | None =>
      if bool_decide (key ∈ object_prototype_keys) then Inherited key
      else Undefined
  end.

(** Property key used when indexing with a possibly absent string:
    [obj[undefined]] reads the property named "undefined". *)
Definition to_property_key (s : option string) : string :=
  match s with
  | Some k => k
  | None => "undefined"
  end.

End Js.

(** ** Configuration *)

Record Config := mkConfig {
  MAX_RETRIES : nat;
  INITIAL_RETRY_DELAY : Z;
  MAX_RETRY_DELAY : Z;
  POLL_INTERVAL_MS : Z;
  POLL_MAX_ATTEMPTS : nat;
  LOCATIONS : gmap string Z
}.

Definition CONFIG : Config := {|
  MAX_RETRIES := 3;
  INITIAL_RETRY_DELAY := 1000;
  MAX_RETRY_DELAY := 10000;
  POLL_INTERVAL_MS := 3000;
  POLL_MAX_ATTEMPTS := 100;
  LOCATIONS :=
    <["Kwality House, Kemps Corner"%string := 9030%Z]>
      (<["Supreme HQ, Bandra"%string := 29821%Z]>
         (<["Kenkere House"%string := 22116%Z]> ∅))
|}.

(** ** Errors and completions *)

Inductive Error :=
| NetworkError (message : string)          (* axios rejected: no response *)
| AxiosStatusError (status : Z)            (* axios rejected: validateStatus *)
| HttpError (status : Z) (statusText : string)  (* `HTTP ${status}: ...` *)
| TypeError                                (* property read on undefined *)
| ReportFailedOnServer                     (* 'Referral report failed on server' *)
| PollingTimeout.                          (* 'Referral report polling timeout' *)

#[global] Instance Error_eq_dec : EqDecision Error.
Proof. solve_decision. Defined.

(** How a call ends: it returns a value or throws. *)
Inductive Completion (A : Type) :=
| Returned (a : A)
| Thrown (e : Error).
Arguments Returned {A} a.
Arguments Thrown {A} e.

Definition is_thrown {A} (c : Completion A) : bool :=
  match c with Thrown _ => true | Returned _ => false end.

(** ** The retrying request executor *)

Module Executor.

(** What the transport does with one HTTP attempt. *)
Inductive Exchange (D : Type) :=
| NoResponse (message : string)
| Reply (status : Z) (statusText : string) (data : D).
Arguments NoResponse {D} message.
Arguments Reply {D} status statusText data.

(** [validateStatus: (status) => status < 500] *)
Definition validateStatus (status : Z) : bool := (status <? 500)%Z.

(** One pass through the [try] block: the axios call followed by the
    check [response.status >= 400]. *)
Definition attempt_once {D} (x : Exchange D) : Completion D :=
  match x with
  | NoResponse m => Thrown (NetworkError m)
  | Reply status statusText data =>
      if validateStatus status then
        if (400 <=? status)%Z then Thrown (HttpError status statusText)
        else Returned data
      else Thrown (AxiosStatusError status)
  end.

(** [Math.min(INITIAL_RETRY_DELAY * Math.pow(2, attempt - 1), MAX_RETRY_DELAY)] *)
Definition delayTime (cfg : Config) (attempt : nat) : Z :=
  (INITIAL_RETRY_DELAY cfg * 2 ^ (Z.of_nat attempt - 1)) `min`
  MAX_RETRY_DELAY cfg.

(** The [for] loop, entered at [attempt] with [remaining] iterations left
    before the guard [attempt <= MAX_RETRIES] fails.  The exchange of
    attempt [k] is [net k].  The result pairs the completion with the
    delays waited, in order; falling out of the loop returns [undefined],
    here [Returned None]. *)
Fixpoint retry_from {D} (cfg : Config) (net : nat → Exchange D)
    (remaining attempt : nat) : Completion (option D) * list Z :=
  match remaining with
  | O => (Returned None, [])
  | S remaining' =>
      match attempt_once (net attempt) with
      | Returned data => (Returned (Some data), [])
      | Thrown error =>
          if bool_decide (attempt = MAX_RETRIES cfg) then (Thrown error, [])
          else
            let rest := retry_from cfg net remaining' (S attempt) in
            (rest.1, delayTime cfg attempt :: rest.2)
      end
  end.

Definition sendRequestWithRetry {D} (cfg : Config) (net : nat → Exchange D)
    : Completion (option D) * list Z :=
  retry_from cfg net (MAX_RETRIES cfg) 1.

Definition attempt_failed {D} (x : Exchange D) : Prop :=
  is_thrown (attempt_once x) = true.

(** Total time asked to wait. *)
Definition total_wait (delays : list Z) : Z := foldr Z.add 0%Z delays.

(** [delayTime 1 + ... + delayTime n] *)
Definition backoff_sum (cfg : Config) (n : nat) : Z :=
  total_wait (delayTime cfg <$> seq 1 n).

End Executor.

(** ** Report rows and the report poller *)

(** One item of the referral report, with the fields the code reads.
    [receivingMemberVisits], [receivingMemberTotalSpend] and
    [homeLocation] may be absent ([None]). *)
Module Referral.
Record t := mk {
  givingMemberId : Z;
  givingMemberFirstName : string;
  givingMemberLastName : string;
  receivingMemberId : Z;
  receivingMemberEmail : string;
  receivingMemberVisits : option Z;
  receivingMemberTotalSpend : option Z;
  homeLocation : option string
}.
End Referral.

Module Report.
Import Executor.

(** The decoded body of a status query: [status], [reportData?.items]
    and [items]. *)
Record Response := mkResponse {
  status : string;
  reportData_items : option (list Referral.t);
  items : option (list Referral.t)
}.

(** [response.reportData?.items || response.items || []]; an array is
    truthy even when it is empty. *)
Definition extract_items (response : Response) : list Referral.t :=
  match reportData_items response with
  | Some nested => nested
  | None =>
      match items response with
      | Some top => top
      | None => []
      end
  end.

(** How the [try] block of one polling iteration ends. *)
Inductive TryOutcome :=
| ReturnItems (found : list Referral.t)   (* [return items] *)
| WaitAndGoOn                             (* [await delay(POLL_INTERVAL_MS)] *)
| Caught (error : Error).                 (* control enters [catch] *)

Definition poll_try (sent : Completion (option Response)) : TryOutcome :=
  match sent with
  | Thrown error => Caught error
  | Returned None => Caught TypeError
  | Returned (Some response) =>
      if bool_decide (status response = "completed") then
        ReturnItems (extract_items response)
      else if bool_decide (status response = "failed") then
        Caught ReportFailedOnServer
      else WaitAndGoOn
  end.

(** What a polling run did: how it ended, how many status queries it
    issued, and the delays it waited (the executor's and its own). *)
Record Run := mkRun {
  outcome : Completion (list Referral.t);
  queries : nat;
  waits : list Z
}.

(** The polling [for] loop entered at [attempt] with [remaining]
    iterations left before [attempt < POLL_MAX_ATTEMPTS] fails; the
    exchanges of the status query number [i] are [net i]. *)
Fixpoint poll_from (cfg : Config) (net : nat → nat → Exchange Response)
    (remaining attempt : nat) : Run :=
  match remaining with
  | O => mkRun (Thrown PollingTimeout) 0 []
  | S remaining' =>
      let sent := sendRequestWithRetry cfg (net attempt) in
      match poll_try sent.1 with
      | ReturnItems found => mkRun (Returned found) 1 sent.2
      | WaitAndGoOn =>
          let rest := poll_from cfg net remaining' (S attempt) in
          mkRun (outcome rest) (S (queries rest))
                (sent.2 ++ POLL_INTERVAL_MS cfg :: waits rest)
      | Caught error =>
          if bool_decide (attempt = POLL_MAX_ATTEMPTS cfg - 1) then
            mkRun (Thrown error) 1 sent.2
          else
            let rest := poll_from cfg net remaining' (S attempt) in
            mkRun (outcome rest) (S (queries rest)) (sent.2 ++ waits rest)
      end
  end.

Definition pollReferralReport (cfg : Config)
    (net : nat → nat → Exchange Response) : Run :=
  poll_from cfg net (POLL_MAX_ATTEMPTS cfg) 0.

(** Status query number [i] comes back from the executor with a body
    whose [status] is [s]. *)
Definition answers_with (cfg : Config) (net : nat → nat → Exchange Response)
    (i : nat) (s : string) : Prop :=
  ∃ response,
    (sendRequestWithRetry cfg (net i)).1 = Returned (Some response) ∧
    status response = s.

End Report.

(** ** The ledger table *)

(** A row of [referral_rewards].  The columns [id], [createdAt],
    [updatedAt], [processing_date], [qualification_comments] and
    [reward_comments] hold clock readings and formatted text and are left
    out. *)
Module Row.
Record t := mk {
  receivingMemberEmail : string;
  receivingMemberId : Z;
  receivingMemberFirstName : string;
  receivingMemberLastName : string;
  manuallyAdded : bool;
  givingMemberRewarded : bool;
  receivingMemberTotalSpend : Z;
  spendingThreshold : Z;
  hostName : string;
  hostCurrency : string;
  givingMemberFirstName : string;
  givingMemberLastName : string;
  givingMemberId : Z;
  shouldGivingMemberBeRewarded : bool;
  homeLocation : option string;
  receivingMemberVisits : option Z;
  processing_status : string
}.

Definition key (row : t) : Z * Z := (givingMemberId row, receivingMemberId row).

Definition set_processing_status (s : string) (row : t) : t :=
  mk (receivingMemberEmail row) (receivingMemberId row)
     (receivingMemberFirstName row) (receivingMemberLastName row)
     (manuallyAdded row) (givingMemberRewarded row)
     (receivingMemberTotalSpend row) (spendingThreshold row) (hostName row)
     (hostCurrency row) (givingMemberFirstName row)
     (givingMemberLastName row) (givingMemberId row)
     (shouldGivingMemberBeRewarded row) (homeLocation row)
     (receivingMemberVisits row) s.

(** The [SET] list of the update issued on a uniqueness conflict. *)
Definition set_refreshed (spend : Z) (visits : option Z) (rewarded : bool)
    (row : t) : t :=
  mk (receivingMemberEmail row) (receivingMemberId row)
     (receivingMemberFirstName row) (receivingMemberLastName row)
     (manuallyAdded row) rewarded spend (spendingThreshold row)
     (hostName row) (hostCurrency row) (givingMemberFirstName row)
     (givingMemberLastName row) (givingMemberId row)
     (shouldGivingMemberBeRewarded row) (homeLocation row) visits
     (processing_status row).
End Row.

Module Ledger.

(** The table, keyed by the pair of the constraint
    [UNIQUE ("givingMemberId", "receivingMemberId")]. *)
Abbreviation table := (gmap (Z * Z) Row.t).

(** The trigger [update_qualification_status], run before every insert
    and update: [NEW."receivingMemberVisits" >= 1] is not true for a
    [NULL]. *)
Definition update_qualification_status (NEW : Row.t) : Row.t :=
  match Row.receivingMemberVisits NEW with
  | Some visits =>
      if (1 <=? visits)%Z then Row.set_processing_status "qualified" NEW
      else Row.set_processing_status "not_qualified" NEW
  | None => Row.set_processing_status "not_qualified" NEW
  end.

(** [.eq('givingMemberId', g).eq('receivingMemberId', r)] *)
Definition select_pair (rows : table) (g r : Z) : list Row.t :=
  option_list (rows !! (g, r)).

(** A successful [insert]: refused with [23505] when the pair is
    taken. *)
Definition insert_row (rows : table) (record : Row.t) : option table :=
  match rows !! Row.key record with
  | Some _ => None
  | None => Some (<[Row.key record := update_qualification_status record]> rows)
  end.

(** A successful [update ... .eq(g).eq(r)]. *)
Definition update_pair (rows : table) (g r : Z) (spend : Z)
    (visits : option Z) (rewarded : bool) : table :=
  alter (λ row, update_qualification_status
                  (Row.set_refreshed spend visits rewarded row)) (g, r) rows.

End Ledger.

(** ** The world outside the process *)

(** A candidate returned by the customer query. *)
Record Candidate := mkCandidate {
  memberId : Z;
  email : string;
  firstName : string;
  lastName : string
}.

(** Calls that leave the process, in the order they are made. *)
Inductive Event :=
| EvSelect (g r : Z)                          (* ledger point lookup *)
| EvInsert (record : Row.t)                   (* ledger insert *)
| EvUpdate (g r : Z) (spend : Z) (visits : option Z) (rewarded : bool)
| EvPayCart (g : Z) (homeLocationId : Js.value).  (* the reward call *)

(** What the ledger service does with a call apart from its normal
    behaviour: the client throws, or answers with an [error] object. *)
Inductive Fault :=
| NoFault
| Throws (message : string)
| Fails (code message : string).

(** The ledger table and the calls made so far. *)
Record World := mkWorld {
  ledger : gmap (Z * Z) Row.t;
  trace : list Event
}.

(** The behaviour of the collaborators, indexed by the number of calls
    made before: the fault injected into a ledger call, and the
    exchanges met by the attempts of a reward call. *)
Record Env := mkEnv {
  store_fault : nat → Fault;
  payment_net : nat → nat → Executor.Exchange unit
}.

(** Computations that read and change the world. *)
Definition M (A : Type) : Type := World → A * World.

#[global] Instance M_ret : MRet M := λ A a w, (a, w).
#[global] Instance M_bind : MBind M :=
  λ A B f m w, f (m w).1 (m w).2.

Definition emit (e : Event) : M unit :=
  λ w, (tt, mkWorld (ledger w) (trace w ++ [e])).

Definition calls_so_far : M nat := λ w, (length (trace w), w).

Definition read_ledger : M (gmap (Z * Z) Row.t) := λ w, (ledger w, w).

Definition write_ledger (rows : gmap (Z * Z) Row.t) : M unit :=
  λ w, (tt, mkWorld rows (trace w)).

(** Counts over a trace. *)
Definition is_issuer_call (e : Event) : bool :=
  match e with EvPayCart _ _ => true | _ => false end.
Definition is_lookup (e : Event) : bool :=
  match e with EvSelect _ _ => true | _ => false end.
Definition is_commit (e : Event) : bool :=
  match e with EvInsert _ | EvUpdate _ _ _ _ _ => true | _ => false end.

Definition issuer_calls (t : list Event) : nat := length (filter is_issuer_call t).
Definition ledger_lookups (t : list Event) : nat := length (filter is_lookup t).
Definition ledger_commits (t : list Event) : nat := length (filter is_commit t).

(** ** The ledger gate *)

Module Gate.

(** What [await supabase.from(..)...] gives back. *)
Inductive Answer (A : Type) :=
| Threw (message : string)
| Failed (code message : string)       (* [{ error }] *)
| Data (data : A).                     (* [{ data, error: null }] *)
Arguments Threw {A} message.
Arguments Failed {A} code message.
Arguments Data {A} data.

Definition answer {A} (f : Fault) (data : A) : Answer A :=
  match f with
  | NoFault => Data data
  | Throws m => Threw m
  | Fails c m => Failed c m
  end.

(** [supabase.from(table).select(..).eq(..).eq(..)] *)
Definition supabase_select (env : Env) (g r : Z)
    : M (Answer (option (list Row.t))) :=
  n ← calls_so_far;
  rows ← read_ledger;
  _ ← emit (EvSelect g r);
  mret (answer (store_fault env n) (Some (Ledger.select_pair rows g r))).

(** [supabase.from(table).insert(record).select()] *)
Definition supabase_insert (env : Env) (record : Row.t) : M (Answer unit) :=
  n ← calls_so_far;
  rows ← read_ledger;
  _ ← emit (EvInsert record);
  match store_fault env n with
  | NoFault =>
      match Ledger.insert_row rows record with
      | Some rows' => _ ← write_ledger rows'; mret (Data tt)
      | None => mret (Failed "23505" "duplicate key value violates unique constraint")
      end
  | Throws m => mret (Threw m)
  | Fails c m => mret (Failed c m)
  end.

(** [supabase.from(table).update({..}).eq(..).eq(..).select()] *)
Definition supabase_update (env : Env) (g r : Z) (spend : Z)
    (visits : option Z) (rewarded : bool) : M (Answer unit) :=
  n ← calls_so_far;
  rows ← read_ledger;
  _ ← emit (EvUpdate g r spend visits rewarded);
  match store_fault env n with
  | NoFault =>
      _ ← write_ledger (Ledger.update_pair rows g r spend visits rewarded);
      mret (Data tt)
  | Throws m => mret (Threw m)
  | Fails c m => mret (Failed c m)
  end.

Record ProcessStatus := mkStatus {
  processed : bool;
  rewarded : bool;
  status : option string
}.

(** The body of [checkIfAlreadyProcessed] after the query came back. *)
Definition status_of (q : Answer (option (list Row.t))) : ProcessStatus :=
  match q with
  | Threw _ => mkStatus false false None
  | Failed _ _ => mkStatus false false None
  | Data data =>
      let existingRecord :=
        match data with
        | Some (row :: _) => Some row
        | _ => None
        end in
      match existingRecord with
      | Some row =>
          mkStatus true (Row.givingMemberRewarded row)
            (if bool_decide (Row.processing_status row = "") then None
             else Some (Row.processing_status row))
      | None => mkStatus false false None
      end
  end.

Definition checkIfAlreadyProcessed (env : Env) (givingMemberId receivingMemberId : Z)
    : M ProcessStatus :=
  q ← supabase_select env givingMemberId receivingMemberId;
  mret (status_of q).

(** The object [processReferralRewards] hands to
    [updateSupabaseRecord]. *)
Record ReferralData := mkReferralData {
  receivingMemberEmail : string;
  receivingMemberId : Z;
  receivingMemberFirstName : string;
  receivingMemberLastName : string;
  givingMemberRewarded : bool;
  receivingMemberTotalSpend : Z;
  givingMemberFirstName : string;
  givingMemberLastName : string;
  givingMemberId : Z;
  homeLocation : option string;
  receivingMemberVisits : Z
}.

(** The [record] built at the top of [updateSupabaseRecord];
    [processing_status] is not sent and starts at the column default. *)
Definition record_of (referralData : ReferralData) : Row.t :=
  Row.mk (receivingMemberEmail referralData)
         (receivingMemberId referralData)
         (receivingMemberFirstName referralData)
         (receivingMemberLastName referralData)
         false
         (givingMemberRewarded referralData)
         (Js.or_num (Some (receivingMemberTotalSpend referralData)) 0)
         0
         "Physique 57 Mumbai"
         "inr"
         (givingMemberFirstName referralData)
         (givingMemberLastName referralData)
         (givingMemberId referralData)
         true
         (homeLocation referralData)
         (Some (receivingMemberVisits referralData))
         "pending".

Definition updateSupabaseRecord (env : Env) (referralData : ReferralData)
    : M bool :=
  let record := record_of referralData in
  inserted ← supabase_insert env record;
  match inserted with
  | Threw _ => mret false
  | Data _ => mret true
  | Failed code _ =>
      if bool_decide (code = "23505") then
        updated ← supabase_update env (Row.givingMemberId record)
                    (Row.receivingMemberId record)
                    (Row.receivingMemberTotalSpend record)
                    (Row.receivingMemberVisits record)
                    (Row.givingMemberRewarded record);
        match updated with
        | Threw _ => mret false
        | Failed _ _ => mret false
        | Data _ => mret true
        end
      else mret false
  end.

End Gate.

(** ** The reward issuer and the main loop *)

(** [CONFIG.LOCATIONS[locationName] || CONFIG.LOCATIONS["Kwality House, Kemps Corner"]] *)
Definition getLocationIdFromName (cfg : Config) (locationName : option string)
    : Js.value :=
  Js.or (Js.get (LOCATIONS cfg) (Js.to_property_key locationName))
        (Js.get (LOCATIONS cfg) "Kwality House, Kemps Corner").

(** [rewardGivingMember]: one pay-cart request through the executor;
    [true] when the executor returns, [false] when it throws. *)
Definition rewardGivingMember (cfg : Config) (env : Env) (givingMemberId : Z)
    (homeLocationId : Js.value) : M bool :=
  n ← calls_so_far;
  _ ← emit (EvPayCart givingMemberId homeLocationId);
  match (Executor.sendRequestWithRetry cfg (payment_net env n)).1 with
  | Returned _ => mret true
  | Thrown _ => mret false
  end.

(** The counters of step 3. *)
Record Counters := mkCounters {
  processedCount : nat;
  rewardedCount : nat;
  skippedCount : nat
}.

(** [customers.forEach(customer => customerMap.set(customer.memberId, customer))] *)
Definition customerMap_of (customers : list Candidate) : gmap Z Candidate :=
  foldl (λ customerMap customer, <[memberId customer := customer]> customerMap)
        ∅ customers.

(** The body of [for (const referral of referralData)]. *)
Definition processReferral (cfg : Config) (env : Env)
    (customerMap : gmap Z Candidate) (counters : Counters)
    (referral : Referral.t) : M Counters :=
  let counters :=
    mkCounters (S (processedCount counters)) (rewardedCount counters)
               (skippedCount counters) in
  match customerMap !! Referral.receivingMemberId referral with
  | None => mret counters
  | Some receivingMember =>
      let isQualified :=
        (1 <=? Js.or_num (Referral.receivingMemberVisits referral) 0)%Z in
      processStatus ← Gate.checkIfAlreadyProcessed env
                        (Referral.givingMemberId referral)
                        (Referral.receivingMemberId referral);
      if Gate.processed processStatus then
        mret (mkCounters (processedCount counters) (rewardedCount counters)
                         (S (skippedCount counters)))
      else
        rewardSuccess ←
          (if isQualified then
             let homeLocationId :=
               getLocationIdFromName cfg (Referral.homeLocation referral) in
             rewardGivingMember cfg env (Referral.givingMemberId referral)
                                homeLocationId
           else mret false);
        let referralRecord :=
          Gate.mkReferralData
            (email receivingMember)
            (Referral.receivingMemberId referral)
            (firstName receivingMember)
            (lastName receivingMember)
            rewardSuccess
            (Js.or_num (Referral.receivingMemberTotalSpend referral) 0)
            (Referral.givingMemberFirstName referral)
            (Referral.givingMemberLastName referral)
            (Referral.givingMemberId referral)
            (Referral.homeLocation referral)
            (Js.or_num (Referral.receivingMemberVisits referral) 1) in
        supabaseSuccess ← Gate.updateSupabaseRecord env referralRecord;
        if rewardSuccess then
          mret (mkCounters (processedCount counters)
                           (S (rewardedCount counters))
                           (skippedCount counters))
        else mret counters
  end.

(** The whole loop over the report, in the order of the report. *)
Fixpoint processReferrals (cfg : Config) (env : Env)
    (customerMap : gmap Z Candidate) (counters : Counters)
    (referralData : list Referral.t) : M Counters :=
  match referralData with
  | [] => mret counters
  | referral :: rest =>
      counters' ← processReferral cfg env customerMap counters referral;
      processReferrals cfg env customerMap counters' rest
  end.

(** Steps 2 and 3 of [processReferralRewards], given the candidates of
    step 1 and the outcome of polling: the two early returns, the
    propagated polling error, and the loop. *)
Definition processReferralRewards (cfg : Config) (env : Env)
    (customers : list Candidate) (report : Completion (list Referral.t))
    : M (Completion (option Counters)) :=
  if bool_decide (length customers = 0) then mret (Returned None)
  else
    match report with
    | Thrown error => mret (Thrown error)
    | Returned referralData =>
        if bool_decide (length referralData = 0) then mret (Returned None)
        else
          counters ← processReferrals cfg env (customerMap_of customers)
                       (mkCounters 0 0 0) referralData;
          mret (Returned (Some counters))
    end.

(** The new calls a computation adds to the trace of [w]. *)
Definition calls_of {A} (m : M A) (w : World) : list Event :=
  drop (length (trace w)) (trace (m w).2).

(** ** Concrete inputs used below *)

Module Scenario.
Import Executor.

(** The first attempt meets no response, every later one a 200. *)
Definition fails_once : nat → Exchange unit :=
  λ attempt, if bool_decide (attempt = 1) then NoResponse "ECONNRESET"
             else Reply 200 "OK" tt.

(** Every attempt meets a 503. *)
Definition always_503 : nat → Exchange unit := λ _, Reply 503 "Service Unavailable" tt.

(** A well-behaved world: no ledger fault, every reward call accepted. *)
Definition calm : Env := mkEnv (λ _, NoFault) (λ _ _, Reply 200 "OK" tt).

(** The ledger answers every call with a connection error. *)
Definition ledger_down : Env :=
  mkEnv (λ _, Fails "08006" "connection failure") (λ _ _, Reply 200 "OK" tt).

(** The three candidates of the scenario of the specification. *)
Definition customers : list Candidate :=
  [ mkCandidate 101 "a@example.com" "Asha" "A";
    mkCandidate 102 "b@example.com" "Bina" "B";
    mkCandidate 103 "c@example.com" "Chitra" "C" ].

Definition referral_102 : Referral.t :=
  Referral.mk 1 "Gita" "One" 102 "b@example.com" (Some 2%Z) (Some 1500%Z)
              (Some "Kenkere House").
Definition referral_104 : Referral.t :=
  Referral.mk 2 "Hema" "Two" 104 "d@example.com" (Some 5%Z) (Some 900%Z)
              (Some "Supreme HQ, Bandra").
Definition referral_103 : Referral.t :=
  Referral.mk 3 "Indu" "Three" 103 "c@example.com" (Some 0%Z) None
              (Some "Kwality House, Kemps Corner").

(** A qualifying record whose home location is named like a member of
    [Object.prototype]. *)
Definition referral_constructor : Referral.t :=
  Referral.mk 1 "Gita" "One" 102 "b@example.com" (Some 1%Z) None
              (Some "constructor").

Definition fresh : World := mkWorld ∅ [].

(** A ledger that already holds an unrewarded row for the pair (1, 102),
    as an earlier run leaves it when its reward call failed. *)
Definition stale_row : Row.t :=
  Row.mk "b@example.com" 102 "Bina" "B" false false 0 0 "Physique 57 Mumbai"
         "inr" "Gita" "One" 1 true (Some "Kenkere House") (Some 1%Z)
         "qualified".
Definition seen_before : World := mkWorld {[ (1%Z, 102%Z) := stale_row ]} [].

(** Status queries: the report is [pending] for ever. *)
Definition always_pending : nat → nat → Exchange Report.Response :=
  λ _ _, Reply 200 "OK" (Report.mkResponse "pending" None None).

(** Status queries: [failed] on the first query, [completed] with one
    item afterwards. *)
Definition failed_then_completed : nat → nat → Exchange Report.Response :=
  λ query _,
    if bool_decide (query = 0) then
      Reply 200 "OK" (Report.mkResponse "failed" None None)
    else
      Reply 200 "OK" (Report.mkResponse "completed" (Some [referral_102]) None).

End Scenario.

(** ** The candidate query *)

Module Customers.
Import Executor.

(** The decoded body of one page of the customer query. *)
Record Page := mkPage {
  payload : option (list Candidate)
}.

(** The [try] block of one iteration of the paging loop: the customers
    to push when [response.payload && response.payload.length > 0], or
    [None] when the page is empty or missing, or the request threw (in
    both cases [hasMoreData] becomes [false]). *)
Definition page_try (sent : Completion (option Page)) : option (list Candidate) :=
  match sent with
  | Returned (Some page) =>
      match payload page with
      | Some (customer :: more) => Some (customer :: more)
      | _ => None
      end
  | Returned None => None
  | Thrown _ => None
  end.

(** The [while (hasMoreData)] loop, entered with the page cursor at
    [page] and [customers] collected so far.  The loop has no bound of
    its own; [fuel] bounds the iterations looked at, and [None] means
    the loop is still running when the fuel is spent.  The exchanges of
    the request for page [p] are [net p]. *)
Fixpoint fetch_from (cfg : Config) (net : nat → nat → Exchange Page)
    (fuel page : nat) (customers : list Candidate) : option (list Candidate) :=
  match fuel with
  | O => None
  | S fuel' =>
      match page_try (sendRequestWithRetry cfg (net page)).1 with
      | Some found => fetch_from cfg net fuel' (S page) (customers ++ found)
      | None => Some customers
      end
  end.

Definition fetchCustomersWithOneVisit (cfg : Config)
    (net : nat → nat → Exchange Page) (fuel : nat) : option (list Candidate) :=
  fetch_from cfg net fuel 0 [].

(** The customers page [p] contributes, [[]] when it stops the loop. *)
Definition page_customers (cfg : Config) (net : nat → nat → Exchange Page)
    (p : nat) : list Candidate :=
  default [] (page_try (sendRequestWithRetry cfg (net p)).1).

(** Page [p] ends the loop. *)
Definition stops_at (cfg : Config) (net : nat → nat → Exchange Page)
    (p : nat) : Prop :=
  page_try (sendRequestWithRetry cfg (net p)).1 = None.

End Customers.

(** ** Starting the report *)

Module Initiate.
Import Executor.

(** The decoded body of the initiation call; [reportRunId] is a number
    when present. *)
Record Body := mkBody {
  reportRunId : option Z
}.

Inductive Failure :=
| Upstream (error : Error)      (* the executor's error, rethrown *)
| NoReportRunId.                (* 'No reportRunId returned from referral report API' *)

(** [initiateReferralReport]: the run identifier, or the error thrown.
    [!response.reportRunId] holds for a missing identifier and for 0. *)
Definition initiateReferralReport (cfg : Config) (net : nat → Exchange Body)
    : Z + Failure :=
  match (sendRequestWithRetry cfg net).1 with
  | Thrown error => inr (Upstream error)
  | Returned None => inr (Upstream TypeError)
  | Returned (Some body) =>
      match reportRunId body with
      | Some id => if (id =? 0)%Z then inr NoReportRunId else inl id
      | None => inr NoReportRunId
      end
  end.

End Initiate.

(** ** Identifiers *)

Module Guid.

(** [v.toString(16)] for [0 <= v < 16]. *)
Definition hex_digit (v : Z) : Ascii.ascii :=
  match v with
  | 0%Z => "0" | 1%Z => "1" | 2%Z => "2" | 3%Z => "3" | 4%Z => "4"
  | 5%Z => "5" | 6%Z => "6" | 7%Z => "7" | 8%Z => "8" | 9%Z => "9"
  | 10%Z => "a" | 11%Z => "b" | 12%Z => "c" | 13%Z => "d" | 14%Z => "e"
  | 15%Z => "f"
  | _ => "?"
  end%char.

(** The callback of [replace]: [r] is [Math.random() * 16 | 0]. *)
Definition replacement (c : Ascii.ascii) (r : Z) : Ascii.ascii :=
  let v := if Ascii.eqb c "x" then r else Z.lor (Z.land r 3) 8 in
  hex_digit v.

(** [template.replace(/[xy]/g, ...)]: the matches are replaced from left
    to right, each with a fresh draw; [rnd k] is draw number [k]. *)
Fixpoint replace_xy (template : string) (rnd : nat → Z) (drawn : nat) : string :=
  match template with
  | EmptyString => EmptyString
  | String c rest =>
      if Ascii.eqb c "x" || Ascii.eqb c "y" then
        String (replacement c (rnd drawn)) (replace_xy rest rnd (S drawn))
      else String c (replace_xy rest rnd drawn)
  end.

Definition generateGuid (rnd : nat → Z) : string :=
  replace_xy "xxxxxxxx-xxxx-4xxx-yxxx-xxxxxxxxxxxx" rnd 0.

Definition is_hex (c : Ascii.ascii) : Prop :=
  c ∈ ["0"; "1"; "2"; "3"; "4"; "5"; "6"; "7"; "8"; "9";
       "a"; "b"; "c"; "d"; "e"; "f"]%char.

(** [g] has the shape of [pattern]: a hexadecimal digit for every [x],
    one of [8 9 a b] for every [y], the pattern's own character
    elsewhere, and the same length. *)
Fixpoint has_shape (pattern g : string) : Prop :=
  match pattern, g with
  | EmptyString, EmptyString => True
  | String p pattern', String c g' =>
      (if Ascii.eqb p "x" then is_hex c
       else if Ascii.eqb p "y" then c ∈ ["8"; "9"; "a"; "b"]%char
       else c = p) ∧
      has_shape pattern' g'
  | _, _ => False
  end.

End Guid.

(** ** Predicates on worlds and ledgers *)

(** The ledger service answers every call normally. *)
Definition healthy (env : Env) : Prop := ∀ n, store_fault env n = NoFault.

(** What the trigger establishes for a row: its status follows its
    visits. *)
Definition status_follows_visits (row : Row.t) : Prop :=
  Row.processing_status row =
    match Row.receivingMemberVisits row with
    | Some visits => if (1 <=? visits)%Z then "qualified" else "not_qualified"
    | None => "not_qualified"
    end.

(** A table as the code keeps it: every row sits under its own pair and
    has passed the trigger. *)
Definition well_kept (rows : gmap (Z * Z) Row.t) : Prop :=
  ∀ pair row, rows !! pair = Some row →
    Row.key row = pair ∧ status_follows_visits row.

(** The pair of a report record. *)
Definition pair_of (referral : Referral.t) : Z * Z :=
  (Referral.givingMemberId referral, Referral.receivingMemberId referral).

(** The [referralRecord] object the loop body builds for a record, its
    candidate and the outcome of the reward call. *)
Definition referralRecord_of (receivingMember : Candidate)
    (referral : Referral.t) (rewardSuccess : bool) : Gate.ReferralData :=
  Gate.mkReferralData
    (email receivingMember)
    (Referral.receivingMemberId referral)
    (firstName receivingMember)
    (lastName receivingMember)
    rewardSuccess
    (Js.or_num (Referral.receivingMemberTotalSpend referral) 0)
    (Referral.givingMemberFirstName referral)
    (Referral.givingMemberLastName referral)
    (Referral.givingMemberId referral)
    (Referral.homeLocation referral)
    (Js.or_num (Referral.receivingMemberVisits referral) 1).

(** [(referral.receivingMemberVisits || 0) >= 1] *)
Definition isQualified (referral : Referral.t) : bool :=
  (1 <=? Js.or_num (Referral.receivingMemberVisits referral) 0)%Z.

(** What a commit of [record] can make of the table [rows]: nothing (the
    call failed), the insertion of the record under a free pair, or the
    update of the row of its pair. *)
Definition committed (rows : gmap (Z * Z) Row.t) (record : Row.t)
    (rows' : gmap (Z * Z) Row.t) : Prop :=
  rows' = rows ∨
  (rows !! Row.key record = None ∧
   rows' = <[Row.key record := Ledger.update_qualification_status record]> rows) ∨
  rows' = Ledger.update_pair rows (Row.givingMemberId record)
            (Row.receivingMemberId record)
            (Row.receivingMemberTotalSpend record)
            (Row.receivingMemberVisits record)
            (Row.givingMemberRewarded record).

(** ** More concrete inputs *)

Module Samples.
Import Executor.

(** Two pages of customers, then an empty page. *)
Definition two_pages : nat → nat → Exchange Customers.Page :=
  λ page _,
    match page with
    | 0 => Reply 200 "OK" (Customers.mkPage
             (Some [mkCandidate 101 "a@example.com" "Asha" "A";
                    mkCandidate 102 "b@example.com" "Bina" "B"]))
    | 1 => Reply 200 "OK" (Customers.mkPage
             (Some [mkCandidate 103 "c@example.com" "Chitra" "C"]))
    | _ => Reply 200 "OK" (Customers.mkPage (Some []))
    end.

(** Every page holds the same customer. *)
Definition endless_pages : nat → nat → Exchange Customers.Page :=
  λ _ _, Reply 200 "OK" (Customers.mkPage
           (Some [mkCandidate 101 "a@example.com" "Asha" "A"])).

(** Status queries: [pending] twice, then [completed]. *)
Definition completes_third : nat → nat → Exchange Report.Response :=
  λ query _,
    if bool_decide (query < 2) then
      Reply 200 "OK" (Report.mkResponse "pending" None None)
    else
      Reply 200 "OK"
        (Report.mkResponse "completed" (Some [Scenario.referral_102])
                           (Some [Scenario.referral_103])).

(** Status queries: the service is unreachable. *)
Definition unreachable : nat → nat → Exchange Report.Response :=
  λ _ _, NoResponse "ETIMEDOUT".



(** A ledger holding a rewarded row for the pair (3, 103). *)
Definition rewarded_row : Row.t :=
  Row.mk "c@example.com" 103 "Chitra" "C" false true 0 0 "Physique 57 Mumbai"
         "inr" "Indu" "Three" 3 true (Some "Kwality House, Kemps Corner")
         (Some 1%Z) "qualified".
Definition rewarded_before : World :=
  mkWorld {[ (3%Z, 103%Z) := rewarded_row ]} [].

Definition report : list Referral.t :=
  [Scenario.referral_102; Scenario.referral_104; Scenario.referral_103].

Definition referralData_102 : Gate.ReferralData :=
  Gate.mkReferralData "b@example.com" 102 "Bina" "B" true 1500 "Gita" "One" 1
                      (Some "Kenkere House") 2.

End Samples.

(** * Properties *)

(** ** The executor *)

Section ExecutorFacts.
Import Executor.
Context {D : Type}.
Implicit Types (cfg : Config) (net : nat → Exchange D).

Lemma total_wait_app ds1 ds2 :
  total_wait (ds1 ++ ds2) = (total_wait ds1 + total_wait ds2)%Z.
Proof.
  unfold total_wait. induction ds1 as [|d ds1 IH]; simpl; [done|].
  rewrite IH. lia.
Qed.

Lemma backoff_sum_S cfg n :
  backoff_sum cfg (S n) = (backoff_sum cfg n + delayTime cfg (S n))%Z.
Proof.
  unfold backoff_sum. rewrite seq_S, fmap_app, total_wait_app. simpl. lia.
Qed.

Lemma attempt_failed_inv (x : Exchange D) :
  attempt_failed x → ∃ error, attempt_once x = Thrown error.
Proof.
  unfold attempt_failed. destruct (attempt_once x) as [d|error]; simpl.
  - discriminate.
  - eauto.
Qed.

(** While the attempts fail and the budget is not reached, the loop waits
    [delayTime] after each of them and goes on. *)
Lemma retry_from_failures cfg net n :
  ∀ remaining attempt,
    n ≤ remaining →
    attempt + n ≤ MAX_RETRIES cfg →
    (∀ k, attempt ≤ k < attempt + n → attempt_failed (net k)) →
    retry_from cfg net remaining attempt =
      ((retry_from cfg net (remaining - n) (attempt + n)).1,
       (delayTime cfg <$> seq attempt n) ++
         (retry_from cfg net (remaining - n) (attempt + n)).2).
Proof.
  induction n as [|n IH]; intros remaining attempt Hrem Hmax Hfail.
  - rewrite Nat.sub_0_r, Nat.add_0_r. simpl. by destruct (retry_from _ _ _ _).
  - destruct remaining as [|remaining]; [lia|].
    destruct (attempt_failed_inv (net attempt)) as [error Herr].
    { apply Hfail. lia. }
    simpl. rewrite Herr.
    rewrite bool_decide_eq_false_2 by lia.
    rewrite (IH remaining (S attempt)); [|lia|lia|].
    + replace (attempt + S n) with (S attempt + n) by lia.
      replace (S remaining - S n) with (remaining - n) by lia.
      done.
    + intros k Hk. apply Hfail. lia.
Qed.

(** The last attempt of the budget: its error is thrown at once. *)
Lemma retry_from_last cfg net remaining error :
  attempt_once (net (MAX_RETRIES cfg)) = Thrown error →
  retry_from cfg net (S remaining) (MAX_RETRIES cfg) = (Thrown error, []).
Proof.
  intros Herr. simpl. rewrite Herr. by rewrite bool_decide_eq_true_2.
Qed.

Lemma retry_from_success cfg net remaining attempt data :
  attempt_once (net attempt) = Returned data →
  retry_from cfg net (S remaining) attempt = (Returned (Some data), []).
Proof. intros Hok. simpl. by rewrite Hok. Qed.

End ExecutorFacts.

Section Backoff.
Import Executor.

(** C7, as amended.  Let the first [N] attempts of the executor fail,
    [1 <= N <= MAX_RETRIES].
    - If [N < MAX_RETRIES] the executor does not raise after the [N]th
      failure: it has waited [min(base * 2^(k-1), cap)] after each of the
      failures [k = 1..N] and makes attempt [N+1]; when that attempt
      succeeds its payload is returned and the total wait is the sum over
      [k = 1..N].
    - If [N = MAX_RETRIES] the executor raises the error of the [N]th
      failure, having waited the sum over [k = 1..N-1]. *)
Theorem backoff_after_failures {D} (cfg : Config) (net : nat → Exchange D)
    (N : nat) :
  1 ≤ N ≤ MAX_RETRIES cfg →
  (∀ k, 1 ≤ k ≤ N → attempt_failed (net k)) →
  (N < MAX_RETRIES cfg →
     take N (sendRequestWithRetry cfg net).2 = delayTime cfg <$> seq 1 N ∧
     ∀ data, attempt_once (net (S N)) = Returned data →
       (sendRequestWithRetry cfg net).1 = Returned (Some data) ∧
       total_wait (sendRequestWithRetry cfg net).2 = backoff_sum cfg N) ∧
  (N = MAX_RETRIES cfg →
     ∃ error, attempt_once (net N) = Thrown error ∧
       (sendRequestWithRetry cfg net).1 = Thrown error ∧
       total_wait (sendRequestWithRetry cfg net).2 = backoff_sum cfg (N - 1)).
Proof.
  intros HN Hfail. unfold sendRequestWithRetry. split.
  - intros Hlt.
    rewrite (retry_from_failures cfg net N) by
      (try lia; intros k Hk; apply Hfail; lia).
    simpl. split.
    + rewrite take_app_length'; [done|]. by rewrite length_fmap, length_seq.
    + intros data Hok.
      replace (MAX_RETRIES cfg - N) with (S (MAX_RETRIES cfg - N - 1)) by lia.
      replace (1 + N) with (S N) by lia.
      rewrite (retry_from_success cfg net _ _ data Hok). simpl.
      split; [done|]. by rewrite app_nil_r.
  - intros ->.
    destruct (attempt_failed_inv (net (MAX_RETRIES cfg))) as [error Herr].
    { apply Hfail. lia. }
    exists error. split; [done|].
    rewrite (retry_from_failures cfg net (MAX_RETRIES cfg - 1)) by
      (try lia; intros k Hk; apply Hfail; lia).
    replace (MAX_RETRIES cfg - (MAX_RETRIES cfg - 1)) with 1 by lia.
    replace (1 + (MAX_RETRIES cfg - 1)) with (MAX_RETRIES cfg) by lia.
    rewrite (retry_from_last cfg net 0 error Herr). simpl.
    split; [done|]. by rewrite app_nil_r.
Qed.

Lemma backoff_after_failures_witness :
  (fst (sendRequestWithRetry CONFIG Scenario.always_503)
     = Thrown (AxiosStatusError 503)) ∧
  total_wait (snd (sendRequestWithRetry CONFIG Scenario.always_503)) = 3000%Z.
Proof.
  destruct (backoff_after_failures CONFIG Scenario.always_503 3) as [_ H].
  - simpl. lia.
  - intros k _. reflexivity.
  - destruct (H eq_refl) as (error & Herr & Hres & Hwait).
    vm_compute in Herr. inversion Herr; subst error.
    split; [exact Hres | exact Hwait].
Defined.

(** C7 as it is written fails: after one failure ([N = 1 < 3]) the
    executor has waited 1000 ms, not the empty sum over [k = 1..0], and it
    returns the payload of the second attempt instead of raising. *)
Lemma backoff_claim_counterexample :
  1 ≤ 1 < MAX_RETRIES CONFIG ∧
  (∀ k, 1 ≤ k ≤ 1 → attempt_failed (Scenario.fails_once k)) ∧
  total_wait (sendRequestWithRetry CONFIG Scenario.fails_once).2 = 1000%Z ∧
  backoff_sum CONFIG (1 - 1) = 0%Z ∧
  (sendRequestWithRetry CONFIG Scenario.fails_once).1 = Returned (Some tt) ∧
  ¬ (total_wait (sendRequestWithRetry CONFIG Scenario.fails_once).2
       = backoff_sum CONFIG (1 - 1) ∧
     is_thrown (sendRequestWithRetry CONFIG Scenario.fails_once).1 = true).
Proof.
  split; [simpl; lia|].
  split; [intros k Hk; replace k with 1 by lia; reflexivity|].
  split; [reflexivity|]. split; [reflexivity|]. split; [reflexivity|].
  intros [Hwait _]. vm_compute in Hwait. discriminate.
Qed.

End Backoff.

(** ** The report poller *)

Section PollerFacts.
Import Executor Report.
Implicit Types (cfg : Config) (net : nat → nat → Exchange Response).

Lemma poll_try_pending cfg net i :
  answers_with cfg net i "pending" →
  poll_try (sendRequestWithRetry cfg (net i)).1 = WaitAndGoOn.
Proof. intros (response & -> & Hs). simpl. by rewrite Hs. Qed.

Lemma poll_try_failed cfg net i :
  answers_with cfg net i "failed" →
  poll_try (sendRequestWithRetry cfg (net i)).1 = Caught ReportFailedOnServer.
Proof. intros (response & -> & Hs). simpl. by rewrite Hs. Qed.

(** A loop that only ever sees [pending] runs to the end of its budget
    and throws the timeout error. *)
Lemma poll_from_pending cfg net remaining :
  ∀ attempt,
    (∀ i, attempt ≤ i < attempt + remaining → answers_with cfg net i "pending") →
    outcome (poll_from cfg net remaining attempt) = Thrown PollingTimeout ∧
    queries (poll_from cfg net remaining attempt) = remaining.
Proof.
  induction remaining as [|remaining IH]; intros attempt Hpending.
  - done.
  - simpl. rewrite poll_try_pending by (apply Hpending; lia). simpl.
    destruct (IH (S attempt)) as [Hout Hq].
    { intros i Hi. apply Hpending. lia. }
    by rewrite Hout, Hq.
Qed.

(** A [failed] status seen before the last iteration is caught by the
    loop's own [catch] and the loop goes on with the next query, without
    waiting. *)
Lemma poll_from_failed_goes_on cfg net remaining attempt :
  answers_with cfg net attempt "failed" →
  attempt ≠ POLL_MAX_ATTEMPTS cfg - 1 →
  outcome (poll_from cfg net (S remaining) attempt)
    = outcome (poll_from cfg net remaining (S attempt)) ∧
  queries (poll_from cfg net (S remaining) attempt)
    = S (queries (poll_from cfg net remaining (S attempt))).
Proof.
  intros Hfailed Hnotlast. simpl. rewrite poll_try_failed by done.
  by rewrite bool_decide_eq_false_2.
Qed.

(** C5.  If every status query within the budget of [POLL_MAX_ATTEMPTS]
    comes back [pending], polling ends by throwing the timeout error,
    after exactly [POLL_MAX_ATTEMPTS] queries; no item list is
    returned. *)
Theorem pending_report_times_out cfg net :
  (∀ i, i < POLL_MAX_ATTEMPTS cfg → answers_with cfg net i "pending") →
  outcome (pollReferralReport cfg net) = Thrown PollingTimeout ∧
  queries (pollReferralReport cfg net) = POLL_MAX_ATTEMPTS cfg ∧
  ∀ found, outcome (pollReferralReport cfg net) ≠ Returned found.
Proof.
  intros Hpending. unfold pollReferralReport.
  destruct (poll_from_pending cfg net (POLL_MAX_ATTEMPTS cfg) 0) as [Hout Hq].
  { intros i Hi. apply Hpending. lia. }
  rewrite Hout. by split; [|split].
Qed.

Lemma pending_report_times_out_witness :
  outcome (pollReferralReport CONFIG Scenario.always_pending)
    = Thrown PollingTimeout ∧
  queries (pollReferralReport CONFIG Scenario.always_pending) = 100.
Proof.
  destruct (pending_report_times_out CONFIG Scenario.always_pending)
    as (Hout & Hq & _).
  - intros i _. eexists. split; reflexivity.
  - split; [exact Hout | exact Hq].
Defined.

(** C6, on the code.  The server reports [failed] on the first status
    query and [completed] on the second: polling does not stop at the
    failure, it issues a second query and returns that query's items. *)
Theorem failed_report_is_polled_again :
  answers_with CONFIG Scenario.failed_then_completed 0 "failed" ∧
  outcome (pollReferralReport CONFIG Scenario.failed_then_completed)
    = Returned [Scenario.referral_102] ∧
  queries (pollReferralReport CONFIG Scenario.failed_then_completed) = 2.
Proof.
  split.
  - eexists. split; reflexivity.
  - split; reflexivity.
Qed.

End PollerFacts.

(** ** The ledger gate and the reward issuer, call by call *)

Section CallFacts.
Implicit Types (cfg : Config) (env : Env) (w : World).

Lemma checkIfAlreadyProcessed_run env g r w :
  Gate.checkIfAlreadyProcessed env g r w =
    (Gate.status_of
       (Gate.answer (store_fault env (length (trace w)))
                    (Some (Ledger.select_pair (ledger w) g r))),
     mkWorld (ledger w) (trace w ++ [EvSelect g r])).
Proof. reflexivity. Qed.

Lemma rewardGivingMember_run cfg env g loc w :
  rewardGivingMember cfg env g loc w =
    (negb (is_thrown
             (Executor.sendRequestWithRetry cfg
                (payment_net env (length (trace w)))).1),
     mkWorld (ledger w) (trace w ++ [EvPayCart g loc])).
Proof.
  unfold rewardGivingMember, mbind, M_bind, calls_so_far, emit. simpl.
  by destruct (Executor.sendRequestWithRetry _ _).1.
Qed.

(** A commit makes one insert call and, on a uniqueness conflict, one
    update call; it never calls the issuer and never looks a pair up. *)
Lemma updateSupabaseRecord_calls env referralData w :
  let record := Gate.record_of referralData in
  ∃ calls,
    trace (Gate.updateSupabaseRecord env referralData w).2 = trace w ++ calls ∧
    (calls = [EvInsert record] ∨
     calls = [EvInsert record;
              EvUpdate (Row.givingMemberId record) (Row.receivingMemberId record)
                       (Row.receivingMemberTotalSpend record)
                       (Row.receivingMemberVisits record)
                       (Row.givingMemberRewarded record)]).
Proof.
  intros record.
  unfold Gate.updateSupabaseRecord, Gate.supabase_insert, Gate.supabase_update,
    mbind, M_bind, calls_so_far, read_ledger, emit, write_ledger.
  simpl. fold record.
  destruct (store_fault env (length (trace w))) as [|m|code m]; simpl.
  - destruct (Ledger.insert_row (ledger w) record); simpl.
    + eexists; split; [done|]. by left.
    + destruct (store_fault env _); simpl; rewrite <- app_assoc;
        (eexists; split; [done|]; by right).
  - eexists; split; [done|]. by left.
  - case_bool_decide; simpl.
    + destruct (store_fault env _); simpl; rewrite <- app_assoc;
        (eexists; split; [done|]; by right).
    + eexists; split; [done|]. by left.
Qed.

(** With a healthy ledger and a free pair, the commit inserts the record
    as the trigger leaves it. *)
Lemma updateSupabaseRecord_fresh env referralData w :
  let record := Gate.record_of referralData in
  store_fault env (length (trace w)) = NoFault →
  ledger w !! Row.key record = None →
  Gate.updateSupabaseRecord env referralData w =
    (true,
     mkWorld (<[Row.key record := Ledger.update_qualification_status record]>
                (ledger w))
             (trace w ++ [EvInsert record])).
Proof.
  intros record Hfault Hfree.
  unfold Gate.updateSupabaseRecord, Gate.supabase_insert,
    mbind, M_bind, calls_so_far, read_ledger, emit, write_ledger.
  simpl. fold record. rewrite Hfault. simpl.
  unfold Ledger.insert_row. by rewrite Hfree.
Qed.

Lemma issuer_calls_app t1 t2 :
  issuer_calls (t1 ++ t2) = issuer_calls t1 + issuer_calls t2.
Proof. unfold issuer_calls. by rewrite filter_app, length_app. Qed.

Lemma ledger_lookups_app t1 t2 :
  ledger_lookups (t1 ++ t2) = ledger_lookups t1 + ledger_lookups t2.
Proof. unfold ledger_lookups. by rewrite filter_app, length_app. Qed.

Lemma ledger_commits_app t1 t2 :
  ledger_commits (t1 ++ t2) = ledger_commits t1 + ledger_commits t2.
Proof. unfold ledger_commits. by rewrite filter_app, length_app. Qed.

Lemma calls_of_app {A} (m : M A) w calls :
  trace (m w).2 = trace w ++ calls → calls_of m w = calls.
Proof. intros H. unfold calls_of. rewrite H. apply drop_app_length. Qed.

End CallFacts.

(** ** One record of the report *)

Section RecordFacts.
Implicit Types (cfg : Config) (env : Env) (w : World)
  (customerMap : gmap Z Candidate) (counters : Counters)
  (referral : Referral.t).

(** The loop over [l1 ++ l2] is the loop over [l1] followed by the loop
    over [l2]: what holds of [processReferral] from every world and every
    counter state holds at every position of a run. *)
Lemma processReferrals_app cfg env customerMap l1 l2 :
  ∀ counters w,
    processReferrals cfg env customerMap counters (l1 ++ l2) w =
    processReferrals cfg env customerMap
      (processReferrals cfg env customerMap counters l1 w).1 l2
      (processReferrals cfg env customerMap counters l1 w).2.
Proof.
  induction l1 as [|referral l1 IH]; intros counters w; simpl.
  - done.
  - unfold mbind, M_bind. apply IH.
Qed.

(** The record whose turn it is after the first [i] records is processed
    from the world and the counters those [i] records leave behind. *)
Lemma processReferrals_take_S cfg env customerMap referralData i referral
    counters w :
  referralData !! i = Some referral →
  processReferrals cfg env customerMap counters (take (S i) referralData) w =
  processReferral cfg env customerMap
    (processReferrals cfg env customerMap counters (take i referralData) w).1
    referral
    (processReferrals cfg env customerMap counters (take i referralData) w).2.
Proof.
  intros Hi. rewrite (take_S_r _ _ _ Hi), processReferrals_app. simpl.
  unfold mbind, M_bind, mret, M_ret. by destruct (processReferral _ _ _ _ _ _).
Qed.

(** C4.  A record whose receiving member is not in the customer map
    leaves the world as it was: no ledger lookup, no ledger write, no
    reward call.  Only [processedCount] moves. *)
Theorem unmatched_record_is_ignored cfg env customerMap counters referral w :
  customerMap !! Referral.receivingMemberId referral = None →
  (processReferral cfg env customerMap counters referral w).2 = w ∧
  ledger_lookups
    (calls_of (processReferral cfg env customerMap counters referral) w) = 0 ∧
  ledger_commits
    (calls_of (processReferral cfg env customerMap counters referral) w) = 0 ∧
  issuer_calls
    (calls_of (processReferral cfg env customerMap counters referral) w) = 0 ∧
  (processReferral cfg env customerMap counters referral w).1 =
    mkCounters (S (processedCount counters)) (rewardedCount counters)
               (skippedCount counters).
Proof.
  intros Habsent.
  assert (processReferral cfg env customerMap counters referral w =
          (mkCounters (S (processedCount counters)) (rewardedCount counters)
                      (skippedCount counters), w)) as Hrun.
  { unfold processReferral. by rewrite Habsent. }
  rewrite (calls_of_app _ w []) by (by rewrite Hrun, app_nil_r).
  by rewrite Hrun.
Qed.

Lemma unmatched_record_is_ignored_witness :
  (processReferral CONFIG Scenario.calm (customerMap_of Scenario.customers)
     (mkCounters 0 0 0) Scenario.referral_104 Scenario.fresh).2
  = Scenario.fresh.
Proof.
  apply (unmatched_record_is_ignored CONFIG Scenario.calm
           (customerMap_of Scenario.customers) (mkCounters 0 0 0)
           Scenario.referral_104 Scenario.fresh).
  vm_compute. reflexivity.
Defined.

(** C1.  When the lookup of the record's pair finds a row, rewarded or
    not, the lookup is the only call made for the record: the issuer is
    not invoked, nothing is committed, the ledger is unchanged and
    [skippedCount] goes up by one. *)
Theorem existing_row_is_skipped cfg env customerMap counters referral w
    receivingMember row :
  customerMap !! Referral.receivingMemberId referral = Some receivingMember →
  store_fault env (length (trace w)) = NoFault →
  ledger w !! (Referral.givingMemberId referral,
               Referral.receivingMemberId referral) = Some row →
  calls_of (processReferral cfg env customerMap counters referral) w =
    [EvSelect (Referral.givingMemberId referral)
              (Referral.receivingMemberId referral)] ∧
  issuer_calls
    (calls_of (processReferral cfg env customerMap counters referral) w) = 0 ∧
  ledger_commits
    (calls_of (processReferral cfg env customerMap counters referral) w) = 0 ∧
  ledger (processReferral cfg env customerMap counters referral w).2 = ledger w ∧
  (processReferral cfg env customerMap counters referral w).1 =
    mkCounters (S (processedCount counters)) (rewardedCount counters)
               (S (skippedCount counters)).
Proof.
  intros Hpresent Hfault Hrow.
  assert (processReferral cfg env customerMap counters referral w =
          (mkCounters (S (processedCount counters)) (rewardedCount counters)
                      (S (skippedCount counters)),
           mkWorld (ledger w)
             (trace w ++ [EvSelect (Referral.givingMemberId referral)
                                   (Referral.receivingMemberId referral)])))
    as Hrun.
  { unfold processReferral. rewrite Hpresent. unfold mbind, M_bind.
    rewrite checkIfAlreadyProcessed_run, Hfault.
    unfold Ledger.select_pair. rewrite Hrow. done. }
  rewrite (calls_of_app _ w
             [EvSelect (Referral.givingMemberId referral)
                       (Referral.receivingMemberId referral)])
    by (by rewrite Hrun).
  rewrite Hrun. done.
Qed.

Lemma existing_row_is_skipped_witness :
  skippedCount
    (processReferral CONFIG Scenario.calm (customerMap_of Scenario.customers)
       (mkCounters 0 0 0) Scenario.referral_102 Scenario.seen_before).1 = 1.
Proof.
  destruct (existing_row_is_skipped CONFIG Scenario.calm
              (customerMap_of Scenario.customers) (mkCounters 0 0 0)
              Scenario.referral_102 Scenario.seen_before
              (mkCandidate 102 "b@example.com" "Bina" "B") Scenario.stale_row)
    as (_ & _ & _ & _ & Hcounters).
  - vm_compute. reflexivity.
  - reflexivity.
  - vm_compute. reflexivity.
  - rewrite Hcounters. reflexivity.
Defined.

End RecordFacts.

Section GateFacts.
Implicit Types (cfg : Config) (env : Env) (w : World)
  (customerMap : gmap Z Candidate) (counters : Counters)
  (referral : Referral.t).

(** C2, as amended.  A pair whose row exists with
    [givingMemberRewarded = false] is not refreshed when it is sighted
    again and the lookup reports the row: the row keeps every field it
    had, and no insert or update is sent. *)
Theorem unrewarded_row_is_left_alone cfg env customerMap counters referral w
    receivingMember row :
  customerMap !! Referral.receivingMemberId referral = Some receivingMember →
  store_fault env (length (trace w)) = NoFault →
  ledger w !! (Referral.givingMemberId referral,
               Referral.receivingMemberId referral) = Some row →
  Row.givingMemberRewarded row = false →
  ledger (processReferral cfg env customerMap counters referral w).2
    !! (Referral.givingMemberId referral, Referral.receivingMemberId referral)
    = Some row ∧
  ∀ e, e ∈ calls_of (processReferral cfg env customerMap counters referral) w →
       is_commit e = false.
Proof.
  intros Hpresent Hfault Hrow _.
  assert (processReferral cfg env customerMap counters referral w =
          (mkCounters (S (processedCount counters)) (rewardedCount counters)
                      (S (skippedCount counters)),
           mkWorld (ledger w)
             (trace w ++ [EvSelect (Referral.givingMemberId referral)
                                   (Referral.receivingMemberId referral)])))
    as Hrun.
  { unfold processReferral. rewrite Hpresent. unfold mbind, M_bind.
    rewrite checkIfAlreadyProcessed_run, Hfault.
    unfold Ledger.select_pair. rewrite Hrow. done. }
  split.
  - by rewrite Hrun.
  - intros e.
    rewrite (calls_of_app _ w
               [EvSelect (Referral.givingMemberId referral)
                         (Referral.receivingMemberId referral)])
      by (by rewrite Hrun).
    intros ->%list_elem_of_singleton. done.
Qed.

Lemma unrewarded_row_is_left_alone_witness :
  ledger
    (processReferral CONFIG Scenario.calm (customerMap_of Scenario.customers)
       (mkCounters 0 0 0) Scenario.referral_102 Scenario.seen_before).2
    !! (1%Z, 102%Z) = Some Scenario.stale_row.
Proof.
  apply (unrewarded_row_is_left_alone CONFIG Scenario.calm
           (customerMap_of Scenario.customers) (mkCounters 0 0 0)
           Scenario.referral_102 Scenario.seen_before
           (mkCandidate 102 "b@example.com" "Bina" "B") Scenario.stale_row).
  - vm_compute. reflexivity.
  - reflexivity.
  - vm_compute. reflexivity.
  - reflexivity.
Defined.

(** C2 as it is written fails.  The ledger holds an unrewarded row for the
    pair (1, 102) with 1 visit and no spend; the report now shows 2 visits
    and a spend of 1500.  After the record is processed the row still
    shows 1 visit and no spend, and the only call made was the lookup. *)
Lemma refresh_claim_counterexample :
  let sighting :=
    processReferral CONFIG Scenario.calm (customerMap_of Scenario.customers)
      (mkCounters 0 0 0) Scenario.referral_102 in
  Row.givingMemberRewarded Scenario.stale_row = false ∧
  Referral.receivingMemberVisits Scenario.referral_102 = Some 2%Z ∧
  Referral.receivingMemberTotalSpend Scenario.referral_102 = Some 1500%Z ∧
  calls_of sighting Scenario.seen_before = [EvSelect 1 102] ∧
  (Row.receivingMemberVisits
     <$> ledger (sighting Scenario.seen_before).2 !! (1%Z, 102%Z))
    = Some (Some 1%Z) ∧
  (Row.receivingMemberTotalSpend
     <$> ledger (sighting Scenario.seen_before).2 !! (1%Z, 102%Z))
    = Some 0%Z ∧
  (Row.receivingMemberVisits
     <$> ledger (sighting Scenario.seen_before).2 !! (1%Z, 102%Z))
    ≠ Some (Referral.receivingMemberVisits Scenario.referral_102).
Proof. vm_compute. repeat split; try reflexivity. discriminate. Qed.


End GateFacts.

Section IssuanceFacts.
Implicit Types (cfg : Config) (env : Env) (w : World)
  (customerMap : gmap Z Candidate) (counters : Counters)
  (referral : Referral.t).

(** The calls made for a record that passes the gate: the lookup, the
    reward call when the record qualifies, and the commit. *)
Lemma processReferral_not_processed cfg env customerMap counters referral w
    receivingMember :
  customerMap !! Referral.receivingMemberId referral = Some receivingMember →
  Gate.processed
    (Gate.checkIfAlreadyProcessed env (Referral.givingMemberId referral)
       (Referral.receivingMemberId referral) w).1 = false →
  ∃ commits,
    trace (processReferral cfg env customerMap counters referral w).2 =
      trace w ++
      EvSelect (Referral.givingMemberId referral)
               (Referral.receivingMemberId referral)
      :: (if (1 <=? Js.or_num (Referral.receivingMemberVisits referral) 0)%Z
          then [EvPayCart (Referral.givingMemberId referral)
                  (getLocationIdFromName cfg (Referral.homeLocation referral))]
          else [])
      ++ commits ∧
    issuer_calls commits = 0 ∧
    skippedCount (processReferral cfg env customerMap counters referral w).1
      = skippedCount counters.
Proof.
  intros Hpresent Hgate.
  destruct (processReferral cfg env customerMap counters referral w)
    as [counters' w'] eqn:Hrun.
  unfold processReferral in Hrun. rewrite Hpresent in Hrun.
  unfold mbind, M_bind in Hrun. rewrite Hgate in Hrun.
  rewrite checkIfAlreadyProcessed_run in Hrun. cbn [fst snd] in Hrun.
  destruct (1 <=? Js.or_num (Referral.receivingMemberVisits referral) 0)%Z.
  - rewrite rewardGivingMember_run in Hrun. cbn [fst snd] in Hrun.
    match type of Hrun with
    | context [Gate.updateSupabaseRecord env ?data ?w2] =>
        destruct (updateSupabaseRecord_calls env data w2)
          as (commits & Htrace & Hshape);
        destruct (Gate.updateSupabaseRecord env data w2) as [saved w3]
    end.
    exists commits. cbn [fst snd trace] in *.
    destruct (negb _); inversion Hrun; subst counters' w'; clear Hrun;
      (split; [rewrite Htrace; by rewrite <- !app_assoc|]);
      (split; [destruct Hshape as [-> | ->]; reflexivity | reflexivity]).
  - cbn [mret M_ret fst snd] in Hrun.
    match type of Hrun with
    | context [Gate.updateSupabaseRecord env ?data ?w1] =>
        destruct (updateSupabaseRecord_calls env data w1)
          as (commits & Htrace & Hshape);
        destruct (Gate.updateSupabaseRecord env data w1) as [saved w3]
    end.
    exists commits. cbn [fst snd trace] in *.
    inversion Hrun; subst counters' w'; clear Hrun.
    split; [rewrite Htrace; by rewrite <- !app_assoc|].
    split; [destruct Hshape as [-> | ->]; reflexivity | reflexivity].
Qed.

(** A pair without a row passes the gate, whatever the ledger service
    does with the lookup. *)
Lemma free_pair_not_processed env g r w :
  ledger w !! (g, r) = None →
  Gate.processed (Gate.checkIfAlreadyProcessed env g r w).1 = false.
Proof.
  intros Hfree. rewrite checkIfAlreadyProcessed_run. simpl.
  unfold Ledger.select_pair. rewrite Hfree.
  by destruct (store_fault env _).
Qed.

End IssuanceFacts.

Section Threshold.
Implicit Types (cfg : Config) (env : Env) (w : World)
  (customerMap : gmap Z Candidate) (counters : Counters)
  (referral : Referral.t).

(** C3.  A record whose receiving member is a candidate and whose pair
    has no ledger row: with [receivingMemberVisits = 0] no reward call is
    made for it; with [receivingMemberVisits >= 1] exactly one reward call
    is made for it, for its giving member. *)
Theorem qualification_threshold cfg env customerMap counters referral w
    receivingMember (visits : Z) :
  customerMap !! Referral.receivingMemberId referral = Some receivingMember →
  ledger w !! (Referral.givingMemberId referral,
               Referral.receivingMemberId referral) = None →
  Referral.receivingMemberVisits referral = Some visits →
  (visits = 0%Z →
     issuer_calls
       (calls_of (processReferral cfg env customerMap counters referral) w) = 0) ∧
  ((1 ≤ visits)%Z →
     issuer_calls
       (calls_of (processReferral cfg env customerMap counters referral) w) = 1 ∧
     EvPayCart (Referral.givingMemberId referral)
               (getLocationIdFromName cfg (Referral.homeLocation referral))
       ∈ calls_of (processReferral cfg env customerMap counters referral) w).
Proof.
  intros Hpresent Hfree Hvisits.
  destruct (processReferral_not_processed cfg env customerMap counters
              referral w receivingMember Hpresent
              (free_pair_not_processed env _ _ w Hfree))
    as (commits & Htrace & Hnone & _).
  apply calls_of_app in Htrace. rewrite Htrace, Hvisits. clear Htrace.
  split.
  - intros ->. simpl. exact Hnone.
  - intros Hge. unfold Js.or_num.
    rewrite (proj2 (Z.eqb_neq visits 0)) by lia.
    rewrite (proj2 (Z.leb_le 1 visits)) by lia.
    split.
    + change (EvSelect ?g ?r :: [?pay] ++ commits)
        with ([EvSelect g r; pay] ++ commits).
      rewrite issuer_calls_app, Hnone. reflexivity.
    + set_solver.
Qed.

Lemma qualification_threshold_witness :
  issuer_calls
    (calls_of
       (processReferral CONFIG Scenario.calm (customerMap_of Scenario.customers)
          (mkCounters 0 0 0) Scenario.referral_102) Scenario.fresh) = 1 ∧
  issuer_calls
    (calls_of
       (processReferral CONFIG Scenario.calm (customerMap_of Scenario.customers)
          (mkCounters 0 0 0) Scenario.referral_103) Scenario.fresh) = 0.
Proof.
  split.
  - refine (proj1 (proj2 (qualification_threshold CONFIG Scenario.calm
              (customerMap_of Scenario.customers) (mkCounters 0 0 0)
              Scenario.referral_102 Scenario.fresh
              (mkCandidate 102 "b@example.com" "Bina" "B") 2 _ _ _) _)).
    + vm_compute. reflexivity.
    + vm_compute. reflexivity.
    + reflexivity.
    + lia.
  - refine (proj1 (qualification_threshold CONFIG Scenario.calm
              (customerMap_of Scenario.customers) (mkCounters 0 0 0)
              Scenario.referral_103 Scenario.fresh
              (mkCandidate 103 "c@example.com" "Chitra" "C") 0 _ _ _) _).
    + vm_compute. reflexivity.
    + vm_compute. reflexivity.
    + reflexivity.
    + reflexivity.
Defined.

(** C8.  When the point lookup fails, by an [error] in the answer or by a
    thrown exception, [checkIfAlreadyProcessed] answers "not processed":
    [processed = false] and [rewarded = false].  The record is then not
    counted as skipped and, when it qualifies, the reward call is made. *)
Theorem failed_lookup_means_not_processed cfg env customerMap counters
    referral w receivingMember :
  store_fault env (length (trace w)) ≠ NoFault →
  customerMap !! Referral.receivingMemberId referral = Some receivingMember →
  (∀ g r,
     Gate.processed (Gate.checkIfAlreadyProcessed env g r w).1 = false ∧
     Gate.rewarded (Gate.checkIfAlreadyProcessed env g r w).1 = false) ∧
  skippedCount (processReferral cfg env customerMap counters referral w).1
    = skippedCount counters ∧
  ((1 ≤ Js.or_num (Referral.receivingMemberVisits referral) 0)%Z →
     issuer_calls
       (calls_of (processReferral cfg env customerMap counters referral) w) = 1).
Proof.
  intros Hfault Hpresent.
  assert (∀ g r,
     Gate.processed (Gate.checkIfAlreadyProcessed env g r w).1 = false ∧
     Gate.rewarded (Gate.checkIfAlreadyProcessed env g r w).1 = false)
    as Hcheck.
  { intros g r. rewrite checkIfAlreadyProcessed_run. simpl.
    by destruct (store_fault env (length (trace w))). }
  split; [exact Hcheck|].
  destruct (processReferral_not_processed cfg env customerMap counters
              referral w receivingMember Hpresent (proj1 (Hcheck _ _)))
    as (commits & Htrace & Hnone & Hskipped).
  split; [exact Hskipped|].
  intros Hqualified. apply calls_of_app in Htrace. rewrite Htrace.
  rewrite (proj2 (Z.leb_le _ _) Hqualified).
  change (EvSelect ?g ?r :: [?pay] ++ commits)
    with ([EvSelect g r; pay] ++ commits).
  rewrite issuer_calls_app, Hnone. reflexivity.
Qed.

Lemma failed_lookup_means_not_processed_witness :
  issuer_calls
    (calls_of
       (processReferral CONFIG Scenario.ledger_down
          (customerMap_of Scenario.customers) (mkCounters 0 0 0)
          Scenario.referral_102) Scenario.seen_before) = 1.
Proof.
  refine (proj2 (proj2 (failed_lookup_means_not_processed CONFIG
            Scenario.ledger_down (customerMap_of Scenario.customers)
            (mkCounters 0 0 0) Scenario.referral_102 Scenario.seen_before
            (mkCandidate 102 "b@example.com" "Bina" "B") _ _)) _).
  - discriminate.
  - vm_compute. reflexivity.
  - vm_compute. discriminate.
Defined.

End Threshold.

Section Locations.

Lemma LOCATIONS_lookup (name : string) (id : Z) :
  LOCATIONS CONFIG !! name = Some id →
  (name = "Kwality House, Kemps Corner" ∧ id = 9030%Z) ∨
  (name = "Supreme HQ, Bandra" ∧ id = 29821%Z) ∨
  (name = "Kenkere House" ∧ id = 22116%Z).
Proof.
  unfold CONFIG, LOCATIONS.
  rewrite !lookup_insert, lookup_empty.
  repeat case_decide; intros; simplify_eq; auto.
Qed.

(** The three mapped names resolve to their ids. *)
Lemma getLocationIdFromName_mapped :
  getLocationIdFromName CONFIG (Some "Kwality House, Kemps Corner")
    = Js.Number 9030 ∧
  getLocationIdFromName CONFIG (Some "Supreme HQ, Bandra") = Js.Number 29821 ∧
  getLocationIdFromName CONFIG (Some "Kenkere House") = Js.Number 22116.
Proof. repeat split; reflexivity. Qed.

(** An absent name resolves to the default. *)
Lemma getLocationIdFromName_absent :
  getLocationIdFromName CONFIG None = Js.Number 9030.
Proof. reflexivity. Qed.

(** A name that is neither mapped nor a member of [Object.prototype]
    resolves to the default. *)
Lemma getLocationIdFromName_unknown (name : string) :
  LOCATIONS CONFIG !! name = None →
  name ∉ Js.object_prototype_keys →
  getLocationIdFromName CONFIG (Some name) = Js.Number 9030.
Proof.
  intros Hunmapped Hplain.
  unfold getLocationIdFromName, Js.get at 1, Js.to_property_key.
  rewrite Hunmapped. by rewrite bool_decide_eq_false_2.
Qed.

(** A name that is a member of [Object.prototype] resolves to that
    member, which is truthy, and the default is not used. *)
Lemma getLocationIdFromName_inherited (name : string) :
  name ∈ Js.object_prototype_keys →
  getLocationIdFromName CONFIG (Some name) = Js.Inherited name.
Proof.
  intros Hproto.
  unfold getLocationIdFromName, Js.get at 1, Js.to_property_key.
  destruct (LOCATIONS CONFIG !! name) as [id|] eqn:Hown.
  - apply LOCATIONS_lookup in Hown.
    destruct Hown as [[-> _]|[[-> _]|[-> _]]];
      exfalso; revert Hproto; apply (bool_decide_eq_false_1 _); reflexivity.
  - by rewrite bool_decide_eq_true_2.
Qed.

End Locations.

Section Recorded.
Implicit Types (cfg : Config) (env : Env) (w : World)
  (customerMap : gmap Z Candidate) (counters : Counters)
  (referral : Referral.t).

(** A record with [receivingMemberVisits = 0] (or absent) that passes the
    gate is committed, with a healthy ledger and a free pair, as a row
    with [receivingMemberVisits = 1]; the trigger marks that row
    [qualified].  The row is not rewarded and no reward call is made. *)
Lemma zero_visits_committed_as_one cfg env customerMap counters referral w
    receivingMember :
  customerMap !! Referral.receivingMemberId referral = Some receivingMember →
  ledger w !! (Referral.givingMemberId referral,
               Referral.receivingMemberId referral) = None →
  Js.or_num (Referral.receivingMemberVisits referral) 0 = 0%Z →
  store_fault env (S (length (trace w))) = NoFault →
  ∃ row,
    ledger (processReferral cfg env customerMap counters referral w).2
      !! (Referral.givingMemberId referral, Referral.receivingMemberId referral)
      = Some row ∧
    Row.receivingMemberVisits row = Some 1%Z ∧
    Row.processing_status row = "qualified" ∧
    Row.givingMemberRewarded row = false ∧
    issuer_calls
      (calls_of (processReferral cfg env customerMap counters referral) w) = 0.
Proof.
  intros Hpresent Hfree Hzero Hfault.
  assert (Js.or_num (Referral.receivingMemberVisits referral) 1 = 1%Z) as Hone.
  { revert Hzero. unfold Js.or_num.
    destruct (Referral.receivingMemberVisits referral) as [n|]; [|done].
    destruct (Z.eqb_spec n 0); [done|]. intros ->. done. }
  pose proof (free_pair_not_processed env _ _ w Hfree) as Hgate.
  destruct (processReferral cfg env customerMap counters referral w)
    as [counters' w'] eqn:Hrun.
  assert (calls_of (processReferral cfg env customerMap counters referral) w
          = drop (length (trace w)) (trace w')) as Hcalls.
  { unfold calls_of. by rewrite Hrun. }
  rewrite Hcalls. clear Hcalls.
  unfold processReferral in Hrun. rewrite Hpresent in Hrun.
  unfold mbind, M_bind in Hrun. rewrite Hgate in Hrun.
  rewrite checkIfAlreadyProcessed_run in Hrun. cbn [fst snd] in Hrun.
  rewrite Hzero, Hone in Hrun. cbn [Z.leb Z.compare mret M_ret fst snd] in Hrun.
  rewrite updateSupabaseRecord_fresh in Hrun; cycle 1.
  { simpl. by rewrite length_app, Nat.add_1_r. }
  { exact Hfree. }
  inversion Hrun; subst counters' w'; clear Hrun. simpl.
  eexists. split; [apply lookup_insert_eq|].
  rewrite <- app_assoc, drop_app_length. done.
Qed.

(** C9, on the code.  The record (g = 3, r = 103, visits = 0) of the
    scenario, with 103 a candidate and an empty ledger: no reward call is
    made and a row is committed with [givingMemberRewarded = false], but
    the row carries [receivingMemberVisits = 1], not the record's 0, and
    the trigger therefore marks it [qualified], not [not_qualified]. *)
Theorem zero_visits_row_says_one :
  let run :=
    processReferral CONFIG Scenario.calm (customerMap_of Scenario.customers)
      (mkCounters 0 0 0) Scenario.referral_103 in
  Referral.receivingMemberVisits Scenario.referral_103 = Some 0%Z ∧
  issuer_calls (calls_of run Scenario.fresh) = 0 ∧
  ledger_commits (calls_of run Scenario.fresh) = 1 ∧
  (Row.givingMemberRewarded <$> ledger (run Scenario.fresh).2 !! (3%Z, 103%Z))
    = Some false ∧
  (Row.receivingMemberVisits <$> ledger (run Scenario.fresh).2 !! (3%Z, 103%Z))
    = Some (Some 1%Z) ∧
  (Row.processing_status <$> ledger (run Scenario.fresh).2 !! (3%Z, 103%Z))
    = Some "qualified".
Proof. vm_compute. repeat split; reflexivity. Qed.

(** C10, on the code.  A qualifying record whose [homeLocation] is
    "constructor": the name is not one of the three mapped ones, yet the
    reward call does not receive the default id 9030 but the member
    [constructor] that the table inherits from [Object.prototype]. *)
Theorem inherited_name_is_not_defaulted :
  let run :=
    processReferral CONFIG Scenario.calm (customerMap_of Scenario.customers)
      (mkCounters 0 0 0) Scenario.referral_constructor in
  Referral.homeLocation Scenario.referral_constructor = Some "constructor" ∧
  LOCATIONS CONFIG !! "constructor" = None ∧
  getLocationIdFromName CONFIG (Some "constructor")
    = Js.Inherited "constructor" ∧
  calls_of run Scenario.fresh !! 1 = Some (EvPayCart 1 (Js.Inherited "constructor")) ∧
  issuer_calls (calls_of run Scenario.fresh) = 1 ∧
  EvPayCart 1 (Js.Number 9030) ∉ calls_of run Scenario.fresh.
Proof.
  repeat split; try reflexivity.
  intros Hin. vm_compute in Hin.
  repeat (apply elem_of_cons in Hin as [Hin|Hin]; [discriminate|]).
  by apply elem_of_nil in Hin.
Qed.

End Recorded.

(** ** A whole run *)

Section RunFacts.
Implicit Types (cfg : Config) (env : Env) (w : World)
  (customerMap : gmap Z Candidate) (counters : Counters)
  (referral : Referral.t).

(** The trace only grows: a record appends its calls to it. *)
Lemma processReferral_extends cfg env customerMap counters referral w :
  trace (processReferral cfg env customerMap counters referral w).2 =
    trace w ++ calls_of (processReferral cfg env customerMap counters referral) w.
Proof.
  cut (∃ calls,
         trace (processReferral cfg env customerMap counters referral w).2
           = trace w ++ calls).
  { intros [calls Hcalls]. by rewrite (calls_of_app _ w calls Hcalls). }
  destruct (customerMap !! Referral.receivingMemberId referral)
    as [receivingMember|] eqn:Hmember.
  - destruct (Gate.processed
                (Gate.checkIfAlreadyProcessed env
                   (Referral.givingMemberId referral)
                   (Referral.receivingMemberId referral) w).1) eqn:Hgate.
    + exists [EvSelect (Referral.givingMemberId referral)
                       (Referral.receivingMemberId referral)].
      unfold processReferral. rewrite Hmember.
      unfold mbind, M_bind. by rewrite Hgate.
    + destruct (processReferral_not_processed cfg env customerMap counters
                  referral w receivingMember Hmember Hgate)
        as (commits & Htrace & _).
      eauto.
  - exists []. unfold processReferral. rewrite Hmember. simpl.
    by rewrite app_nil_r.
Qed.

Lemma processReferrals_extends cfg env customerMap referralData :
  ∀ counters w,
    trace (processReferrals cfg env customerMap counters referralData w).2 =
      trace w ++
      calls_of (processReferrals cfg env customerMap counters referralData) w.
Proof.
  induction referralData as [|referral rest IH]; intros counters w.
  - unfold calls_of. simpl. by rewrite drop_all, app_nil_r.
  - cut (∃ calls,
           trace (processReferrals cfg env customerMap counters
                    (referral :: rest) w).2 = trace w ++ calls).
    { intros [calls Hcalls]. by rewrite (calls_of_app _ w calls Hcalls). }
    simpl. unfold mbind, M_bind.
    rewrite IH, processReferral_extends, <- app_assoc. eauto.
Qed.

(** The calls of the first [i + 1] records are the calls of the first
    [i] followed by the calls of record [i], made from the world and the
    counters the first [i] records leave behind. *)
Lemma processReferrals_calls_take_S cfg env customerMap referralData i
    referral counters w :
  referralData !! i = Some referral →
  calls_of (processReferrals cfg env customerMap counters
              (take (S i) referralData)) w =
    calls_of (processReferrals cfg env customerMap counters
                (take i referralData)) w ++
    calls_of
      (processReferral cfg env customerMap
         (processReferrals cfg env customerMap counters
            (take i referralData) w).1 referral)
      (processReferrals cfg env customerMap counters (take i referralData) w).2.
Proof.
  intros Hi. apply calls_of_app.
  rewrite (processReferrals_take_S _ _ _ _ _ _ _ _ Hi).
  by rewrite processReferral_extends, processReferrals_extends, <- app_assoc.
Qed.

(** The scenario of the specification, run on the code: three candidates
    and the report rows for 102 (2 visits), 104 (not a candidate) and 103
    (0 visits), on an empty ledger. *)
Example scenario_run :
  let run :=
    processReferralRewards CONFIG Scenario.calm Scenario.customers
      (Returned [Scenario.referral_102; Scenario.referral_104;
                 Scenario.referral_103]) in
  (run Scenario.fresh).1 = Returned (Some (mkCounters 3 1 0)) ∧
  is_issuer_call <$> trace (run Scenario.fresh).2
    = [false; true; false; false; false] ∧
  trace (run Scenario.fresh).2 !! 1 = Some (EvPayCart 1 (Js.Number 22116)) ∧
  (Row.givingMemberRewarded <$> ledger (run Scenario.fresh).2 !! (1%Z, 102%Z))
    = Some true ∧
  ledger (run Scenario.fresh).2 !! (2%Z, 104%Z) = None ∧
  (Row.givingMemberRewarded <$> ledger (run Scenario.fresh).2 !! (3%Z, 103%Z))
    = Some false.
Proof. vm_compute. repeat split; reflexivity. Qed.

End RunFacts.

(** * Further properties of the code *)

(** ** More on the executor *)

Section ExecutorMore.
Import Executor.
Context {D : Type}.
Implicit Types (cfg : Config) (net : nat → Exchange D).

Lemma retry_from_thrown cfg net remaining :
  ∀ attempt error,
    (retry_from cfg net remaining attempt).1 = Thrown error →
    attempt ≤ MAX_RETRIES cfg ∧
    (∀ k, attempt ≤ k ≤ MAX_RETRIES cfg → attempt_failed (net k)) ∧
    attempt_once (net (MAX_RETRIES cfg)) = Thrown error.
Proof.
  induction remaining as [|remaining IH]; intros attempt error; simpl.
  - discriminate.
  - destruct (attempt_once (net attempt)) as [data|thrown] eqn:Hattempt.
    + discriminate.
    + case_bool_decide as Hlast; simpl.
      * intros [= ->]. subst attempt. split; [lia|]. split; [|done].
        intros k Hk. replace k with (MAX_RETRIES cfg) by lia.
        unfold attempt_failed. by rewrite Hattempt.
      * intros Hrest. destruct (IH _ _ Hrest) as (Hle & Hall & Hlasterr).
        split; [lia|]. split; [|done].
        intros k Hk. destruct (decide (k = attempt)) as [->|Hne].
        -- unfold attempt_failed. by rewrite Hattempt.
        -- apply Hall. lia.
Qed.

(** The executor throws only when every one of its [MAX_RETRIES]
    attempts failed, and what it throws is the error of the last
    attempt. *)
Theorem executor_throws_after_all_attempts cfg net error :
  (sendRequestWithRetry cfg net).1 = Thrown error →
  (∀ k, 1 ≤ k ≤ MAX_RETRIES cfg → attempt_failed (net k)) ∧
  attempt_once (net (MAX_RETRIES cfg)) = Thrown error.
Proof. intros H. by destruct (retry_from_thrown _ _ _ _ _ H) as (_ & ? & ?). Qed.

Lemma retry_from_waits cfg net remaining :
  ∀ attempt,
    attempt + remaining = S (MAX_RETRIES cfg) →
    length (retry_from cfg net remaining attempt).2 ≤ MAX_RETRIES cfg - attempt ∧
    Forall (λ d, (d ≤ MAX_RETRY_DELAY cfg)%Z)
           (retry_from cfg net remaining attempt).2.
Proof.
  induction remaining as [|remaining IH]; intros attempt Haligned; simpl.
  - split; [lia|constructor].
  - destruct (attempt_once (net attempt)); simpl.
    + split; [lia|constructor].
    + case_bool_decide; simpl.
      * split; [lia|constructor].
      * destruct (IH (S attempt)) as [Hlen Hall]; [lia|].
        split; [lia|]. constructor; [|done].
        unfold delayTime. lia.
Qed.

Lemma total_wait_bound (cap : Z) ds :
  Forall (λ d, (d ≤ cap)%Z) ds →
  (total_wait ds ≤ Z.of_nat (length ds) * Z.max 0 cap)%Z.
Proof.
  induction 1 as [|d ds Hd _ IH]; simpl; [lia|].
  unfold total_wait in *. simpl. lia.
Qed.

(** Whatever the transport does, the executor waits at most
    [MAX_RETRIES - 1] times, never longer than [MAX_RETRY_DELAY] at a
    time, so at most [(MAX_RETRIES - 1) * MAX_RETRY_DELAY] in all. *)
Theorem executor_wait_is_bounded cfg net :
  length (sendRequestWithRetry cfg net).2 ≤ MAX_RETRIES cfg - 1 ∧
  Forall (λ d, (d ≤ MAX_RETRY_DELAY cfg)%Z) (sendRequestWithRetry cfg net).2 ∧
  (total_wait (sendRequestWithRetry cfg net).2
     ≤ Z.of_nat (MAX_RETRIES cfg - 1) * Z.max 0 (MAX_RETRY_DELAY cfg))%Z.
Proof.
  unfold sendRequestWithRetry.
  destruct (retry_from_waits cfg net (MAX_RETRIES cfg) 1) as [Hlen Hall]; [lia|].
  split; [done|]. split; [done|].
  pose proof (total_wait_bound _ _ Hall). nia.
Qed.

Lemma retry_from_defined cfg net remaining :
  ∀ attempt,
    attempt + remaining = S (MAX_RETRIES cfg) →
    1 ≤ remaining →
    (retry_from cfg net remaining attempt).1 ≠ Returned None.
Proof.
  induction remaining as [|remaining IH]; intros attempt Haligned Hsome; simpl.
  - lia.
  - destruct (attempt_once (net attempt)); simpl; [done|].
    case_bool_decide; simpl; [done|]. apply IH; lia.
Qed.

(** With at least one attempt allowed, the executor never falls out of
    its loop: it returns the payload of an attempt or throws. *)
Theorem executor_returns_payload_or_throws cfg net :
  1 ≤ MAX_RETRIES cfg →
  (∃ data, (sendRequestWithRetry cfg net).1 = Returned (Some data)) ∨
  (∃ error, (sendRequestWithRetry cfg net).1 = Thrown error).
Proof.
  intros Hmax. pose proof (retry_from_defined cfg net (MAX_RETRIES cfg) 1) as H.
  unfold sendRequestWithRetry.
  destruct (retry_from cfg net (MAX_RETRIES cfg) 1).1 as [[data|]|error]; eauto.
  exfalso. apply H; [lia|lia|done].
Qed.

End ExecutorMore.

Lemma executor_throws_after_all_attempts_witness :
  Executor.attempt_once (Scenario.always_503 3) = Thrown (AxiosStatusError 503).
Proof.
  apply (executor_throws_after_all_attempts CONFIG Scenario.always_503
           (AxiosStatusError 503)).
  reflexivity.
Defined.

Lemma executor_returns_payload_or_throws_witness :
  (∃ data, (Executor.sendRequestWithRetry CONFIG Scenario.fails_once).1
             = Returned (Some data)) ∨
  (∃ error, (Executor.sendRequestWithRetry CONFIG Scenario.fails_once).1
              = Thrown error).
Proof.
  apply (executor_returns_payload_or_throws CONFIG Scenario.fails_once).
  simpl. lia.
Defined.

(** From one retry to the next the delay never shrinks, as long as the
    base delay is not negative. *)
Theorem delayTime_never_shrinks (cfg : Config) (attempt : nat) :
  (0 ≤ INITIAL_RETRY_DELAY cfg)%Z →
  1 ≤ attempt →
  (Executor.delayTime cfg attempt ≤ Executor.delayTime cfg (S attempt))%Z.
Proof.
  intros Hbase Hattempt. unfold Executor.delayTime.
  apply Z.min_le_compat_r, Z.mul_le_mono_nonneg_l; [done|].
  apply Z.pow_le_mono_r; lia.
Qed.

Lemma delayTime_never_shrinks_witness :
  (Executor.delayTime CONFIG 4 ≤ Executor.delayTime CONFIG 5)%Z.
Proof.
  apply (delayTime_never_shrinks CONFIG 4).
  - simpl. lia.
  - lia.
Defined.

(** ** More on the report poller *)

Section PollerMore.
Import Executor Report.
Implicit Types (cfg : Config) (net : nat → nat → Exchange Response).

Lemma poll_from_completed cfg net pending :
  ∀ remaining attempt response,
    pending < remaining →
    (∀ i, attempt ≤ i < attempt + pending → answers_with cfg net i "pending") →
    (sendRequestWithRetry cfg (net (attempt + pending))).1
      = Returned (Some response) →
    status response = "completed" →
    outcome (poll_from cfg net remaining attempt)
      = Returned (extract_items response) ∧
    queries (poll_from cfg net remaining attempt) = S pending.
Proof.
  induction pending as [|pending IH];
    intros remaining attempt response Hbudget Hpending Hsent Hstatus;
    (destruct remaining as [|remaining]; [lia|]); simpl.
  - rewrite Nat.add_0_r in Hsent. rewrite Hsent. simpl. by rewrite Hstatus.
  - rewrite poll_try_pending by (apply Hpending; lia). simpl.
    destruct (IH remaining (S attempt) response) as [Hout Hq];
      [lia| | |done|].
    + intros i Hi. apply Hpending. lia.
    + by replace (S attempt + pending) with (attempt + S pending) by lia.
    + by rewrite Hout, Hq.
Qed.

(** A report that is [pending] for the first [k] status queries and
    [completed] on the next one, within the budget, is returned after
    exactly [k + 1] queries; its items are taken from
    [reportData.items] when that is present, even if empty, and from
    [items] otherwise. *)
Theorem completed_report_is_returned cfg net (k : nat) response :
  k < POLL_MAX_ATTEMPTS cfg →
  (∀ i, i < k → answers_with cfg net i "pending") →
  (sendRequestWithRetry cfg (net k)).1 = Returned (Some response) →
  status response = "completed" →
  outcome (pollReferralReport cfg net) =
    Returned (match reportData_items response with
              | Some nested => nested
              | None => default [] (items response)
              end) ∧
  queries (pollReferralReport cfg net) = S k.
Proof.
  intros Hk Hpending Hsent Hstatus. unfold pollReferralReport.
  destruct (poll_from_completed cfg net k (POLL_MAX_ATTEMPTS cfg) 0 response)
    as [Hout Hq]; [done| |done|done|].
  { intros i Hi. apply Hpending. lia. }
  rewrite Hout, Hq. split; [|done]. unfold extract_items.
  by destruct (reportData_items response), (items response).
Qed.

Lemma completed_report_is_returned_witness :
  outcome (pollReferralReport CONFIG Samples.completes_third)
    = Returned [Scenario.referral_102] ∧
  queries (pollReferralReport CONFIG Samples.completes_third) = 3.
Proof.
  apply (completed_report_is_returned CONFIG Samples.completes_third 2
           (mkResponse "completed" (Some [Scenario.referral_102])
                       (Some [Scenario.referral_103]))).
  - simpl. lia.
  - intros i Hi.
    destruct i as [|[|i]]; [eexists; split; reflexivity ..|lia].
  - reflexivity.
  - reflexivity.
Defined.

Lemma poll_from_queries cfg net remaining :
  ∀ attempt, queries (poll_from cfg net remaining attempt) ≤ remaining.
Proof.
  induction remaining as [|remaining IH]; intros attempt; simpl; [lia|].
  destruct (poll_try _); simpl.
  - lia.
  - specialize (IH (S attempt)). lia.
  - case_bool_decide; simpl; [lia|]. specialize (IH (S attempt)). lia.
Qed.

(** Polling never issues more than [POLL_MAX_ATTEMPTS] status queries,
    whatever the server answers. *)
Theorem poll_queries_are_bounded cfg net :
  queries (pollReferralReport cfg net) ≤ POLL_MAX_ATTEMPTS cfg.
Proof. apply poll_from_queries. Qed.

Lemma poll_from_all_thrown cfg net remaining :
  ∀ attempt,
    attempt + S remaining = POLL_MAX_ATTEMPTS cfg →
    (∀ i, attempt ≤ i < POLL_MAX_ATTEMPTS cfg →
          is_thrown (sendRequestWithRetry cfg (net i)).1 = true) →
    outcome (poll_from cfg net (S remaining) attempt)
      = Thrown match (sendRequestWithRetry cfg
                        (net (POLL_MAX_ATTEMPTS cfg - 1))).1 with
               | Thrown error => error
               | Returned _ => PollingTimeout
               end ∧
    queries (poll_from cfg net (S remaining) attempt) = S remaining ∧
    waits (poll_from cfg net (S remaining) attempt) =
      concat ((λ i, (sendRequestWithRetry cfg (net i)).2)
                <$> seq attempt (S remaining)).
Proof.
  induction remaining as [|remaining IH]; intros attempt Haligned Hthrown.
  - assert (attempt = POLL_MAX_ATTEMPTS cfg - 1) as Hlast by lia.
    pose proof (Hthrown attempt ltac:(lia)) as Hnow.
    cbn [poll_from]. rewrite <- Hlast.
    destruct (sendRequestWithRetry cfg (net attempt)) as [[?|error] ds] eqn:Hs;
      [discriminate|].
    simpl. rewrite bool_decide_eq_true_2 by done. simpl.
    by rewrite Hs, app_nil_r.
  - pose proof (Hthrown attempt ltac:(lia)) as Hnow.
    destruct (IH (S attempt)) as (Hout & Hq & Hw); [lia| |].
    { intros i Hi. apply Hthrown. lia. }
    remember (S remaining) as n eqn:Hn.
    cbn [poll_from].
    destruct (sendRequestWithRetry cfg (net attempt)) as [[?|error] ds] eqn:Hs;
      [discriminate|].
    cbn [poll_try fst snd]. rewrite bool_decide_eq_false_2 by lia.
    cbn [outcome queries waits]. rewrite Hout, Hq, Hw.
    split; [done|]. split; [done|].
    cbn [seq fmap list_fmap concat]. by rewrite Hs.
Qed.

(** When every status query throws, the errors of all but the last are
    swallowed and polling goes on at once: the poller throws the error of
    the last query, not the timeout error, after [POLL_MAX_ATTEMPTS]
    queries, and its only waits are those of the executor. *)
Theorem unreachable_report_throws_last_error cfg net error :
  1 ≤ POLL_MAX_ATTEMPTS cfg →
  (∀ i, i < POLL_MAX_ATTEMPTS cfg →
        is_thrown (sendRequestWithRetry cfg (net i)).1 = true) →
  (sendRequestWithRetry cfg (net (POLL_MAX_ATTEMPTS cfg - 1))).1 = Thrown error →
  outcome (pollReferralReport cfg net) = Thrown error ∧
  queries (pollReferralReport cfg net) = POLL_MAX_ATTEMPTS cfg ∧
  waits (pollReferralReport cfg net) =
    concat ((λ i, (sendRequestWithRetry cfg (net i)).2)
              <$> seq 0 (POLL_MAX_ATTEMPTS cfg)).
Proof.
  intros Hbudget Hthrown Hlast. unfold pollReferralReport.
  destruct (POLL_MAX_ATTEMPTS cfg) as [|n] eqn:Hn; [lia|].
  destruct (poll_from_all_thrown cfg net n 0) as (Hout & Hq & Hw).
  - lia.
  - rewrite Hn. intros i Hi. apply Hthrown. lia.
  - rewrite Hn, Hlast in Hout. by rewrite Hout, Hq, Hw.
Qed.

Lemma unreachable_report_throws_last_error_witness :
  outcome (pollReferralReport CONFIG Samples.unreachable)
    = Thrown (NetworkError "ETIMEDOUT") ∧
  queries (pollReferralReport CONFIG Samples.unreachable) = 100.
Proof.
  destruct (unreachable_report_throws_last_error CONFIG Samples.unreachable
              (NetworkError "ETIMEDOUT")) as (Hout & Hq & _).
  - simpl. lia.
  - intros i _. reflexivity.
  - reflexivity.
  - split; [exact Hout | exact Hq].
Defined.

End PollerMore.

(** ** The candidate query *)

Section CustomersFacts.
Import Executor Customers.
Implicit Types (cfg : Config) (net : nat → nat → Exchange Page).

Lemma fetch_from_stops cfg net pages :
  ∀ fuel page customers,
    pages < fuel →
    (∀ p, page ≤ p < page + pages → ¬ stops_at cfg net p) →
    stops_at cfg net (page + pages) →
    fetch_from cfg net fuel page customers =
      Some (customers ++ concat (page_customers cfg net <$> seq page pages)).
Proof.
  induction pages as [|pages IH];
    intros fuel page customers Hfuel Hdata Hstop;
    (destruct fuel as [|fuel]; [lia|]); simpl.
  - rewrite Nat.add_0_r in Hstop. unfold stops_at in Hstop. rewrite Hstop.
    by rewrite app_nil_r.
  - pose proof (Hdata page ltac:(lia)) as Hpage. unfold stops_at in Hpage.
    unfold page_customers at 1.
    destruct (page_try (sendRequestWithRetry cfg (net page)).1) as [found|];
      [|done].
    rewrite (IH fuel (S page)); [by rewrite <- app_assoc|lia| |].
    + intros p Hp. apply Hdata. lia.
    + by replace (S page + pages) with (page + S pages) by lia.
Qed.

(** The paging loop stops at the first page that is empty, missing or
    whose request fails, and returns the customers of the pages before
    it, in order; nothing of that page or of later pages is returned,
    and a failed page is not reported as an error. *)
Theorem customers_are_the_pages_before_first_stop cfg net (pages fuel : nat) :
  pages < fuel →
  (∀ p, p < pages → ¬ stops_at cfg net p) →
  stops_at cfg net pages →
  fetchCustomersWithOneVisit cfg net fuel =
    Some (concat (page_customers cfg net <$> seq 0 pages)).
Proof.
  intros Hfuel Hdata Hstop. unfold fetchCustomersWithOneVisit.
  rewrite (fetch_from_stops cfg net pages); [done|done| |done].
  intros p Hp. apply Hdata. lia.
Qed.

Lemma customers_are_the_pages_before_first_stop_witness :
  fetchCustomersWithOneVisit CONFIG Samples.two_pages 10 =
    Some [mkCandidate 101 "a@example.com" "Asha" "A";
          mkCandidate 102 "b@example.com" "Bina" "B";
          mkCandidate 103 "c@example.com" "Chitra" "C"].
Proof.
  apply (customers_are_the_pages_before_first_stop CONFIG Samples.two_pages 2 10).
  - lia.
  - intros p Hp. destruct p as [|[|p]]; [discriminate|discriminate|lia].
  - reflexivity.
Defined.

Lemma fetch_from_endless cfg net fuel :
  ∀ page customers,
    (∀ p, page ≤ p → ¬ stops_at cfg net p) →
    fetch_from cfg net fuel page customers = None.
Proof.
  induction fuel as [|fuel IH]; intros page customers Hdata; simpl; [done|].
  pose proof (Hdata page ltac:(lia)) as Hpage. unfold stops_at in Hpage.
  destruct (page_try (sendRequestWithRetry cfg (net page)).1); [|done].
  apply IH. intros p Hp. apply Hdata. lia.
Qed.

(** The paging loop has no page limit: against a server that answers
    every page with customers it never returns, however many iterations
    it is given. *)
Theorem customers_loop_needs_an_empty_page cfg net :
  (∀ p, ¬ stops_at cfg net p) →
  ∀ fuel, fetchCustomersWithOneVisit cfg net fuel = None.
Proof. intros Hdata fuel. apply fetch_from_endless. intros p _. apply Hdata. Qed.

Lemma customers_loop_needs_an_empty_page_witness :
  fetchCustomersWithOneVisit CONFIG Samples.endless_pages 1000 = None.
Proof.
  apply (customers_loop_needs_an_empty_page CONFIG Samples.endless_pages).
  intros p. discriminate.
Defined.

Lemma customerMap_of_snoc (customers : list Candidate) (customer : Candidate) :
  customerMap_of (customers ++ [customer]) =
    <[memberId customer := customer]> (customerMap_of customers).
Proof. unfold customerMap_of. by rewrite foldl_app. Qed.

(** The customer map holds, for a member id, the last customer of the
    list with that id: later duplicates replace earlier ones, and an id
    that does not occur is not in the map. *)
Theorem customerMap_keeps_last (customers : list Candidate) (id : Z) :
  customerMap_of customers !! id =
    last (filter (λ customer, memberId customer = id) customers).
Proof.
  induction customers as [|customer customers IH] using rev_ind.
  - done.
  - rewrite customerMap_of_snoc, filter_app, lookup_insert.
    case_decide as Hid.
    + rewrite filter_cons_True, filter_nil by done. by rewrite last_snoc.
    + rewrite filter_cons_False, filter_nil by done. by rewrite app_nil_r.
Qed.

End CustomersFacts.

(** ** Starting the report, identifiers, locations *)

(** [initiateReferralReport] yields a run identifier exactly when the
    executor returns a body whose [reportRunId] is present and not 0;
    a body without one, or with 0, is an error. *)
Theorem report_run_id_must_be_truthy (cfg : Config)
    (net : nat → Executor.Exchange Initiate.Body) (id : Z) :
  Initiate.initiateReferralReport cfg net = inl id ↔
  ∃ body,
    (Executor.sendRequestWithRetry cfg net).1 = Returned (Some body) ∧
    Initiate.reportRunId body = Some id ∧ id ≠ 0%Z.
Proof.
  unfold Initiate.initiateReferralReport. split.
  - destruct (Executor.sendRequestWithRetry cfg net).1 as [[body|]|error];
      [|discriminate|discriminate].
    destruct (Initiate.reportRunId body) as [n|] eqn:Hid; [|discriminate].
    destruct (Z.eqb_spec n 0); [discriminate|].
    intros [= ->]. eauto.
  - intros (body & -> & -> & Hid).
    by rewrite (proj2 (Z.eqb_neq id 0) Hid).
Qed.

Section GuidFacts.
Import Guid.

Lemma hex_digit_is_hex (v : Z) : (0 ≤ v < 16)%Z → is_hex (hex_digit v).
Proof.
  intros Hv. unfold is_hex.
  assert (∃ n : nat, n < 16 ∧ v = Z.of_nat n) as (n & Hn & ->).
  { exists (Z.to_nat v). lia. }
  clear Hv.
  do 16 (destruct n as [|n];
         [vm_compute;
          repeat first [apply list_elem_of_here | apply list_elem_of_further]|]).
  lia.
Qed.

Lemma variant_digit (r : Z) :
  hex_digit (Z.lor (Z.land r 3) 8) ∈ ["8"; "9"; "a"; "b"]%char.
Proof.
  change 3%Z with (Z.ones 2). rewrite Z.land_ones by lia.
  assert (∃ n : nat, n < 4 ∧ (r `mod` 2 ^ 2)%Z = Z.of_nat n) as (n & Hn & ->).
  { pose proof (Z.mod_pos_bound r (2 ^ 2) ltac:(lia)).
    exists (Z.to_nat (r `mod` 2 ^ 2)). lia. }
  do 4 (destruct n as [|n];
        [vm_compute;
         repeat first [apply list_elem_of_here | apply list_elem_of_further]|]).
  lia.
Qed.

Lemma replace_xy_shape (rnd : nat → Z) (template : string) :
  (∀ k, (0 ≤ rnd k < 16)%Z) →
  ∀ drawn, has_shape template (replace_xy template rnd drawn).
Proof.
  intros Hrnd. induction template as [|p template IH]; intros drawn.
  - done.
  - cbn [replace_xy].
    destruct (Ascii.eqb p "x") eqn:Hx; [|destruct (Ascii.eqb p "y") eqn:Hy];
      cbn [orb has_shape]; rewrite ?Hx, ?Hy; (split; [|apply IH]).
    + unfold replacement. rewrite Hx. by apply hex_digit_is_hex.
    + unfold replacement. rewrite Hx. apply variant_digit.
    + done.
Qed.

(** Every identifier [generateGuid] makes has the layout of a version 4
    UUID: 36 characters, hyphens after the 8th, 13th, 18th and 23rd,
    the version digit 4, a variant digit among 8, 9, a, b, and
    lower-case hexadecimal digits elsewhere. *)
Theorem generateGuid_is_uuid_v4 (rnd : nat → Z) :
  (∀ k, (0 ≤ rnd k < 16)%Z) →
  has_shape "xxxxxxxx-xxxx-4xxx-yxxx-xxxxxxxxxxxx" (generateGuid rnd) ∧
  String.length (generateGuid rnd) = 36.
Proof.
  intros Hrnd. split.
  - by apply replace_xy_shape.
  - reflexivity.
Qed.

Lemma generateGuid_is_uuid_v4_witness :
  String.length (generateGuid (λ k, Z.of_nat (k `mod` 16))) = 36.
Proof.
  apply (generateGuid_is_uuid_v4 (λ k, Z.of_nat (k `mod` 16))).
  intros k. pose proof (Nat.mod_upper_bound k 16). lia.
Defined.

End GuidFacts.

(** Whatever the name, the location resolver of the shipped
    configuration yields a truthy value, never [undefined]: the mapped
    id for a mapped name, the inherited member for a name of
    [Object.prototype], and 9030 for every other name and for an absent
    one. *)
Theorem location_resolution (locationName : option string) :
  let key := Js.to_property_key locationName in
  getLocationIdFromName CONFIG locationName =
    match LOCATIONS CONFIG !! key with
    | Some id => Js.Number id
    | None =>
        if bool_decide (key ∈ Js.object_prototype_keys) then Js.Inherited key
        else Js.Number 9030
    end ∧
  Js.truthy (getLocationIdFromName CONFIG locationName) = true.
Proof.
  intros key.
  assert (getLocationIdFromName CONFIG locationName =
          match LOCATIONS CONFIG !! key with
          | Some id => Js.Number id
          | None =>
              if bool_decide (key ∈ Js.object_prototype_keys)
              then Js.Inherited key else Js.Number 9030
          end) as Hresolved.
  { unfold getLocationIdFromName, Js.get at 1. fold key.
    destruct (LOCATIONS CONFIG !! key) as [id|] eqn:Hown.
    - apply LOCATIONS_lookup in Hown.
      destruct Hown as [[_ ->]|[[_ ->]|[_ ->]]]; reflexivity.
    - case_bool_decide; reflexivity. }
  split; [exact Hresolved|]. rewrite Hresolved.
  destruct (LOCATIONS CONFIG !! key) as [id|] eqn:Hown.
  - apply LOCATIONS_lookup in Hown.
    destruct Hown as [[_ ->]|[[_ ->]|[_ ->]]]; reflexivity.
  - case_bool_decide; reflexivity.
Qed.

(** ** What a commit does to the ledger *)

Section CommitFacts.
Implicit Types (cfg : Config) (env : Env) (w : World)
  (rows : gmap (Z * Z) Row.t).

Lemma trigger_keeps_key (row : Row.t) :
  Row.key (Ledger.update_qualification_status row) = Row.key row.
Proof.
  unfold Ledger.update_qualification_status.
  destruct (Row.receivingMemberVisits row) as [visits|]; [|done].
  by destruct (1 <=? visits)%Z.
Qed.

Lemma trigger_sets_status (row : Row.t) :
  status_follows_visits (Ledger.update_qualification_status row).
Proof.
  unfold status_follows_visits, Ledger.update_qualification_status.
  destruct (Row.receivingMemberVisits row) as [visits|] eqn:Hv.
  - destruct (1 <=? visits)%Z eqn:Hq; simpl; by rewrite Hv, Hq.
  - simpl. by rewrite Hv.
Qed.

Lemma updateSupabaseRecord_committed env referralData w :
  committed (ledger w) (Gate.record_of referralData)
            (ledger (Gate.updateSupabaseRecord env referralData w).2).
Proof.
  unfold committed, Gate.updateSupabaseRecord, Gate.supabase_insert,
    Gate.supabase_update, mbind, M_bind, calls_so_far, read_ledger, emit,
    write_ledger.
  cbn [fst snd ledger trace mret M_ret].
  set (record := Gate.record_of referralData).
  destruct (store_fault env (length (trace w))) as [|m|code m].
  - unfold Ledger.insert_row.
    destruct (ledger w !! Row.key record) eqn:Hpair;
      cbn [fst snd ledger trace mret M_ret].
    + rewrite bool_decide_eq_true_2 by done.
      cbn [fst snd ledger trace mret M_ret].
      destruct (store_fault env _); cbn [fst snd ledger trace mret M_ret];
        [right; right; done | left; done | left; done].
    + right; left. done.
  - left. done.
  - cbn [fst snd ledger trace mret M_ret]. case_bool_decide.
    + cbn [fst snd ledger trace mret M_ret].
      destruct (store_fault env _); cbn [fst snd ledger trace mret M_ret];
        [right; right; done | left; done | left; done].
    + left. done.
Qed.

Lemma committed_frame rows record rows' (pair : Z * Z) :
  committed rows record rows' →
  pair ≠ Row.key record →
  rows' !! pair = rows !! pair.
Proof.
  intros [->|[[_ ->]| ->]] Hother.
  - done.
  - by rewrite lookup_insert_ne.
  - unfold Ledger.update_pair. by rewrite lookup_alter_ne.
Qed.

Lemma committed_keeps_rows rows record rows' (pair : Z * Z) :
  committed rows record rows' →
  is_Some (rows !! pair) → is_Some (rows' !! pair).
Proof.
  intros [->|[[Hfree ->]| ->]] Hrow.
  - done.
  - destruct (decide (pair = Row.key record)) as [->|Hother].
    + rewrite lookup_insert_eq. eauto.
    + by rewrite lookup_insert_ne.
  - unfold Ledger.update_pair. rewrite lookup_alter.
    case_decide; [|done]. subst pair. destruct Hrow as [row ->]. simpl. eauto.
Qed.

Lemma committed_well_kept rows record rows' :
  committed rows record rows' → well_kept rows → well_kept rows'.
Proof.
  intros [->|[[Hfree ->]| ->]] Hkept pair row; [apply Hkept| |].
  - rewrite lookup_insert. case_decide as Hpair.
    + intros [= <-]. split; [by rewrite trigger_keeps_key|].
      apply trigger_sets_status.
    + apply Hkept.
  - unfold Ledger.update_pair. rewrite lookup_alter.
    case_decide as Hpair; [|apply Hkept].
    destruct (rows !! (Row.givingMemberId record, Row.receivingMemberId record))
      as [old|] eqn:Hold; [|done].
    simpl. intros [= <-]. split; [|apply trigger_sets_status].
    rewrite trigger_keeps_key. destruct (Hkept _ _ Hold) as [Hkey _].
    by rewrite <- Hpair, <- Hkey.
Qed.

(** A commit whose insert throws, or is refused for another reason than
    a uniqueness conflict, gives up: it answers [false], makes no further
    call and leaves the table as it was. *)
Theorem failed_insert_changes_nothing env referralData w :
  (∃ message, store_fault env (length (trace w)) = Throws message) ∨
  (∃ code message, store_fault env (length (trace w)) = Fails code message ∧
                   code ≠ "23505") →
  Gate.updateSupabaseRecord env referralData w =
    (false, mkWorld (ledger w)
              (trace w ++ [EvInsert (Gate.record_of referralData)])).
Proof.
  unfold Gate.updateSupabaseRecord, Gate.supabase_insert,
    mbind, M_bind, calls_so_far, read_ledger, emit, write_ledger.
  cbn [fst snd ledger trace mret M_ret].
  intros [[message ->]|(code & message & -> & Hcode)].
  - done.
  - cbn [fst snd ledger trace mret M_ret].
    by rewrite bool_decide_eq_false_2.
Qed.

Lemma failed_insert_changes_nothing_witness :
  (Gate.updateSupabaseRecord Scenario.ledger_down Samples.referralData_102
     Scenario.fresh).1 = false.
Proof.
  rewrite (failed_insert_changes_nothing Scenario.ledger_down
             Samples.referralData_102 Scenario.fresh).
  - reflexivity.
  - right. exists "08006", "connection failure". split; [reflexivity|].
    discriminate.
Defined.



End CommitFacts.

(** ** What a record, and a run, do to the ledger *)

Section LedgerFacts.
Implicit Types (cfg : Config) (env : Env) (w : World)
  (customerMap : gmap Z Candidate) (counters : Counters)
  (referral : Referral.t).

(** The loop body for a record that the gate stops. *)
Lemma processReferral_stopped cfg env customerMap counters referral w
    receivingMember :
  customerMap !! Referral.receivingMemberId referral = Some receivingMember →
  Gate.processed
    (Gate.checkIfAlreadyProcessed env (Referral.givingMemberId referral)
       (Referral.receivingMemberId referral) w).1 = true →
  processReferral cfg env customerMap counters referral w =
    (mkCounters (S (processedCount counters)) (rewardedCount counters)
                (S (skippedCount counters)),
     mkWorld (ledger w)
       (trace w ++ [EvSelect (Referral.givingMemberId referral)
                             (Referral.receivingMemberId referral)])).
Proof.
  intros Hmember Hgate. unfold processReferral. rewrite Hmember.
  unfold mbind, M_bind. by rewrite Hgate.
Qed.

(** The loop body for a record that passes the gate. *)
Lemma processReferral_passed cfg env customerMap counters referral w
    receivingMember :
  customerMap !! Referral.receivingMemberId referral = Some receivingMember →
  Gate.processed
    (Gate.checkIfAlreadyProcessed env (Referral.givingMemberId referral)
       (Referral.receivingMemberId referral) w).1 = false →
  let looked :=
    mkWorld (ledger w)
      (trace w ++ [EvSelect (Referral.givingMemberId referral)
                            (Referral.receivingMemberId referral)]) in
  let rewarded :=
    if isQualified referral then
      rewardGivingMember cfg env (Referral.givingMemberId referral)
        (getLocationIdFromName cfg (Referral.homeLocation referral)) looked
    else (false, looked) in
  processReferral cfg env customerMap counters referral w =
    (mkCounters (S (processedCount counters))
                (if rewarded.1 then S (rewardedCount counters)
                 else rewardedCount counters)
                (skippedCount counters),
     (Gate.updateSupabaseRecord env
        (referralRecord_of receivingMember referral rewarded.1) rewarded.2).2).
Proof.
  intros Hmember Hgate looked rewarded.
  unfold processReferral. rewrite Hmember.
  unfold mbind, M_bind. rewrite Hgate.
  rewrite checkIfAlreadyProcessed_run. cbn [fst snd]. fold looked.
  subst rewarded. unfold isQualified, referralRecord_of.
  destruct (1 <=? Js.or_num (Referral.receivingMemberVisits referral) 0)%Z.
  - by destruct (rewardGivingMember _ _ _ _ _).1.
  - done.
Qed.

Lemma reward_keeps_ledger cfg env g loc w :
  ledger (rewardGivingMember cfg env g loc w).2 = ledger w.
Proof. by rewrite rewardGivingMember_run. Qed.

(** A record either leaves the table alone or commits a record of its
    own pair to it. *)
Lemma processReferral_committed cfg env customerMap counters referral w :
  ∃ record,
    Row.key record = pair_of referral ∧
    committed (ledger w) record
      (ledger (processReferral cfg env customerMap counters referral w).2).
Proof.
  destruct (customerMap !! Referral.receivingMemberId referral)
    as [receivingMember|] eqn:Hmember.
  - destruct (Gate.processed
                (Gate.checkIfAlreadyProcessed env
                   (Referral.givingMemberId referral)
                   (Referral.receivingMemberId referral) w).1) eqn:Hgate.
    + rewrite (processReferral_stopped _ _ _ _ _ _ _ Hmember Hgate).
      exists (Gate.record_of (referralRecord_of receivingMember referral false)).
      split; [done|]. by left.
    + rewrite (processReferral_passed _ _ _ _ _ _ _ Hmember Hgate).
      cbn [snd].
      match goal with
      | |- context [referralRecord_of receivingMember referral ?r.1] =>
          set (rewarded := r)
      end.
      assert (ledger rewarded.2 = ledger w) as Hsame.
      { subst rewarded. destruct (isQualified referral); [|done].
        by rewrite reward_keeps_ledger. }
      exists (Gate.record_of
                (referralRecord_of receivingMember referral rewarded.1)).
      split; [done|]. rewrite <- Hsame. apply updateSupabaseRecord_committed.
  - exists (Gate.record_of
              (referralRecord_of (mkCandidate 0 "" "" "") referral false)).
    split; [done|]. left. unfold processReferral. by rewrite Hmember.
Qed.

End LedgerFacts.

Section RunLedger.
Implicit Types (cfg : Config) (env : Env) (w : World)
  (customerMap : gmap Z Candidate) (counters : Counters)
  (referral : Referral.t) (referralData : list Referral.t).

Lemma processReferrals_cons cfg env customerMap counters referral referralData w :
  processReferrals cfg env customerMap counters (referral :: referralData) w =
    processReferrals cfg env customerMap
      (processReferral cfg env customerMap counters referral w).1 referralData
      (processReferral cfg env customerMap counters referral w).2.
Proof. reflexivity. Qed.

(** A run changes no row but those of the pairs in its report: the row
    of any other pair, present or not, is after the run what it was
    before. *)
Theorem run_touches_only_reported_pairs cfg env customerMap referralData
    (pair : Z * Z) :
  ∀ counters w,
    pair ∉ pair_of <$> referralData →
    ledger (processReferrals cfg env customerMap counters referralData w).2
      !! pair = ledger w !! pair.
Proof.
  induction referralData as [|referral referralData IH];
    intros counters w Hother.
  - done.
  - rewrite processReferrals_cons.
    rewrite fmap_cons, not_elem_of_cons in Hother. destruct Hother as [Hne Hrest].
    rewrite IH by done.
    destruct (processReferral_committed cfg env customerMap counters referral w)
      as (record & Hkey & Hcommitted).
    apply (committed_frame _ _ _ _ Hcommitted). by rewrite Hkey.
Qed.

Lemma run_touches_only_reported_pairs_witness :
  ledger (processReferrals CONFIG Scenario.calm
            (customerMap_of Scenario.customers) (mkCounters 0 0 0)
            [Scenario.referral_103; Scenario.referral_104]
            Scenario.seen_before).2 !! (1%Z, 102%Z)
    = Some Scenario.stale_row.
Proof.
  rewrite (run_touches_only_reported_pairs CONFIG Scenario.calm
             (customerMap_of Scenario.customers)
             [Scenario.referral_103; Scenario.referral_104] (1%Z, 102%Z)).
  - reflexivity.
  - intros Hin. vm_compute in Hin.
    repeat (apply elem_of_cons in Hin as [Hin|Hin]; [discriminate|]).
    by apply elem_of_nil in Hin.
Defined.

(** A run never deletes a row, whatever the ledger service and the
    reward endpoint do: every pair that has a row before the run has one
    after it. *)
Theorem run_never_deletes_rows cfg env customerMap referralData :
  ∀ counters w,
    dom (ledger w) ⊆
    dom (ledger (processReferrals cfg env customerMap counters referralData w).2).
Proof.
  induction referralData as [|referral referralData IH]; intros counters w.
  - done.
  - rewrite processReferrals_cons. etrans; [|apply IH].
    destruct (processReferral_committed cfg env customerMap counters referral w)
      as (record & _ & Hcommitted).
    intros pair. rewrite !elem_of_dom.
    apply (committed_keeps_rows _ _ _ _ Hcommitted).
Qed.

(** A run keeps the table well kept: if every row sits under its own
    pair with the status the trigger derives from its visits, the same
    holds after the run. *)
Theorem run_keeps_ledger_well_kept cfg env customerMap referralData :
  ∀ counters w,
    well_kept (ledger w) →
    well_kept
      (ledger (processReferrals cfg env customerMap counters referralData w).2).
Proof.
  induction referralData as [|referral referralData IH]; intros counters w Hkept.
  - done.
  - rewrite processReferrals_cons. apply IH.
    destruct (processReferral_committed cfg env customerMap counters referral w)
      as (record & _ & Hcommitted).
    by apply (committed_well_kept _ _ _ Hcommitted).
Qed.

Lemma run_keeps_ledger_well_kept_witness :
  well_kept
    (ledger (processReferrals CONFIG Scenario.calm
               (customerMap_of Scenario.customers) (mkCounters 0 0 0)
               Samples.report Scenario.fresh).2).
Proof.
  apply (run_keeps_ledger_well_kept CONFIG Scenario.calm
           (customerMap_of Scenario.customers) Samples.report
           (mkCounters 0 0 0) Scenario.fresh).
  intros pair row Hrow. simpl in Hrow. by rewrite lookup_empty in Hrow.
Defined.

End RunLedger.

(** ** Runs against a healthy ledger *)

Section HealthyLedger.
Implicit Types (cfg : Config) (env : Env) (w : World)
  (customerMap : gmap Z Candidate) (counters : Counters)
  (referral : Referral.t) (referralData : list Referral.t).

Lemma healthy_gate env g r w :
  healthy env →
  Gate.processed (Gate.checkIfAlreadyProcessed env g r w).1
    = bool_decide (is_Some (ledger w !! (g, r))).
Proof.
  intros Hhealthy. rewrite checkIfAlreadyProcessed_run, Hhealthy.
  unfold Ledger.select_pair.
  destruct (ledger w !! (g, r)).
  - by rewrite bool_decide_eq_true_2.
  - rewrite bool_decide_eq_false_2; [done|]. by intros [? ?].
Qed.

(** Against a healthy ledger a record of a known pair changes nothing,
    and a record of a new pair whose receiving member is a candidate
    inserts its row. *)
Lemma healthy_step cfg env customerMap counters referral w :
  healthy env →
  (ledger (processReferral cfg env customerMap counters referral w).2 = ledger w ∧
   (is_Some (customerMap !! Referral.receivingMemberId referral) →
    is_Some (ledger w !! pair_of referral)) ∧
   (is_Some (ledger w !! pair_of referral) ∨
    customerMap !! Referral.receivingMemberId referral = None →
    calls_of (processReferral cfg env customerMap counters referral) w = [] ∨
    calls_of (processReferral cfg env customerMap counters referral) w
      = [EvSelect (Referral.givingMemberId referral)
                  (Referral.receivingMemberId referral)]) ∧
   rewardedCount (processReferral cfg env customerMap counters referral w).1
     = rewardedCount counters)
  ∨
  (ledger w !! pair_of referral = None ∧
   ∃ receivingMember rewardSuccess,
     customerMap !! Referral.receivingMemberId referral = Some receivingMember ∧
     ledger (processReferral cfg env customerMap counters referral w).2 =
       <[pair_of referral :=
           Ledger.update_qualification_status
             (Gate.record_of
                (referralRecord_of receivingMember referral rewardSuccess))]>
         (ledger w)).
Proof.
  intros Hhealthy.
  destruct (customerMap !! Referral.receivingMemberId referral)
    as [receivingMember|] eqn:Hmember.
  - pose proof (healthy_gate env (Referral.givingMemberId referral)
                  (Referral.receivingMemberId referral) w Hhealthy) as Hgate.
    case_bool_decide as Hrow.
    + left. rewrite (processReferral_stopped _ _ _ _ _ _ _ Hmember Hgate).
      split; [done|]. split; [done|]. split; [|done].
      intros _. right. unfold calls_of.
      rewrite (processReferral_stopped _ _ _ _ _ _ _ Hmember Hgate).
      apply drop_app_length.
    + right. assert (ledger w !! pair_of referral = None) as Hfree.
      { by apply eq_None_not_Some. }
      split; [done|].
      rewrite (processReferral_passed _ _ _ _ _ _ _ Hmember Hgate). cbn [snd].
      match goal with
      | |- context [referralRecord_of receivingMember referral ?r.1] =>
          set (rewarded := r)
      end.
      assert (ledger rewarded.2 = ledger w) as Hsame.
      { subst rewarded. destruct (isQualified referral); [|done].
        by rewrite reward_keeps_ledger. }
      exists receivingMember, rewarded.1. split; [done|].
      rewrite updateSupabaseRecord_fresh; [by rewrite Hsame|apply Hhealthy|].
      by rewrite Hsame.
  - left. unfold calls_of, processReferral. rewrite Hmember. simpl.
    split; [done|]. split; [by intros [? ?]|]. split; [|done].
    intros _. left. apply drop_all.
Qed.

Lemma healthy_rows_stay cfg env customerMap referralData
    (pair : Z * Z) (row : Row.t) :
  healthy env →
  ∀ counters w,
    ledger w !! pair = Some row →
    ledger (processReferrals cfg env customerMap counters referralData w).2
      !! pair = Some row.
Proof.
  intros Hhealthy.
  induction referralData as [|referral referralData IH];
    intros counters w Hrow.
  - done.
  - rewrite processReferrals_cons. apply IH.
    destruct (healthy_step cfg env customerMap counters referral w Hhealthy)
      as [(-> & _)|(Hfree & member & ok & _ & ->)]; [done|].
    rewrite lookup_insert_ne; [done|]. intros <-. congruence.
Qed.

(** Against a healthy ledger a run leaves every row that exists before
    it exactly as it was: no field of it is refreshed and a rewarded row
    stays rewarded. *)
Theorem healthy_run_preserves_rows cfg env customerMap counters referralData w
    (pair : Z * Z) (row : Row.t) :
  healthy env →
  ledger w !! pair = Some row →
  ledger (processReferrals cfg env customerMap counters referralData w).2
    !! pair = Some row.
Proof. intros Hhealthy Hrow. by apply healthy_rows_stay. Qed.

Lemma healthy_run_preserves_rows_witness :
  ledger (processReferrals CONFIG Scenario.calm
            (customerMap_of Scenario.customers) (mkCounters 0 0 0)
            Samples.report Samples.rewarded_before).2 !! (3%Z, 103%Z)
    = Some Samples.rewarded_row.
Proof.
  apply (healthy_run_preserves_rows CONFIG Scenario.calm
           (customerMap_of Scenario.customers) (mkCounters 0 0 0)
           Samples.report Samples.rewarded_before (3%Z, 103%Z)
           Samples.rewarded_row).
  - intros n. reflexivity.
  - reflexivity.
Defined.


Lemma calls_of_cons cfg env customerMap counters referral referralData w :
  calls_of (processReferrals cfg env customerMap counters
              (referral :: referralData)) w =
    calls_of (processReferral cfg env customerMap counters referral) w ++
    calls_of
      (processReferrals cfg env customerMap
         (processReferral cfg env customerMap counters referral w).1
         referralData)
      (processReferral cfg env customerMap counters referral w).2.
Proof.
  apply calls_of_app. rewrite processReferrals_cons.
  by rewrite processReferrals_extends, processReferral_extends, <- app_assoc.
Qed.






End HealthyLedger.

(** ** Counters and outbound calls of a run *)

Section Accounting.
Implicit Types (cfg : Config) (env : Env) (w : World)
  (customerMap : gmap Z Candidate) (counters : Counters)
  (referral : Referral.t) (referralData : list Referral.t).

Lemma tally_cons (f : Event → bool) (e : Event) (t : list Event) :
  length (filter f (e :: t)) = (if f e then 1 else 0) + length (filter f t).
Proof.
  rewrite filter_cons. destruct (decide (f e)) as [Hf|Hf];
    destruct (f e); simpl in *; done.
Qed.

Ltac tally :=
  unfold issuer_calls, ledger_lookups, ledger_commits;
  rewrite ?tally_cons; simpl; repeat split; lia.

(** What one record adds to the counters and to the calls. *)
Lemma step_accounting cfg env customerMap counters referral w :
  let calls := calls_of (processReferral cfg env customerMap counters referral) w in
  let counters' := (processReferral cfg env customerMap counters referral w).1 in
  processedCount counters' = S (processedCount counters) ∧
  ledger_lookups calls ≤ 1 ∧
  issuer_calls calls ≤ ledger_lookups calls ∧
  ledger_commits calls ≤ 2 * ledger_lookups calls ∧
  rewardedCount counters ≤ rewardedCount counters' ∧
  rewardedCount counters' ≤ rewardedCount counters + issuer_calls calls ∧
  skippedCount counters ≤ skippedCount counters' ∧
  rewardedCount counters' + skippedCount counters'
    ≤ rewardedCount counters + skippedCount counters + 1.
Proof.
  intros calls counters'. subst calls counters'. unfold calls_of.
  destruct (customerMap !! Referral.receivingMemberId referral)
    as [receivingMember|] eqn:Hmember.
  - destruct (Gate.processed
                (Gate.checkIfAlreadyProcessed env
                   (Referral.givingMemberId referral)
                   (Referral.receivingMemberId referral) w).1) eqn:Hgate.
    + rewrite (processReferral_stopped _ _ _ _ _ _ _ Hmember Hgate).
      cbn [fst snd trace]. rewrite drop_app_length. tally.
    + rewrite (processReferral_passed _ _ _ _ _ _ _ Hmember Hgate).
      cbn [fst snd].
      destruct (isQualified referral).
      * rewrite rewardGivingMember_run. cbn [fst snd].
        match goal with
        | |- context [Gate.updateSupabaseRecord env ?data ?w2] =>
            destruct (updateSupabaseRecord_calls env data w2)
              as (commits & -> & Hshape)
        end.
        cbn [trace]. rewrite <- !app_assoc, drop_app_length.
        destruct (negb _), Hshape as [-> | ->]; tally.
      * cbn [fst snd].
        match goal with
        | |- context [Gate.updateSupabaseRecord env ?data ?w2] =>
            destruct (updateSupabaseRecord_calls env data w2)
              as (commits & -> & Hshape)
        end.
        cbn [trace]. rewrite <- !app_assoc, drop_app_length.
        destruct Hshape as [-> | ->]; tally.
  - unfold processReferral. rewrite Hmember. cbn [mret M_ret fst snd].
    rewrite drop_all. tally.
Qed.

(** The counters of a run: every record is counted as processed; a
    record is counted at most once as rewarded or skipped; and no reward
    is counted without a reward call. *)
Theorem run_counters cfg env customerMap referralData :
  ∀ counters w,
    let counters' :=
      (processReferrals cfg env customerMap counters referralData w).1 in
    processedCount counters' = processedCount counters + length referralData ∧
    rewardedCount counters ≤ rewardedCount counters' ∧
    skippedCount counters ≤ skippedCount counters' ∧
    rewardedCount counters' + skippedCount counters'
      ≤ rewardedCount counters + skippedCount counters + length referralData ∧
    rewardedCount counters' ≤
      rewardedCount counters +
      issuer_calls
        (calls_of (processReferrals cfg env customerMap counters referralData) w).
Proof.
  induction referralData as [|referral referralData IH]; intros counters w.
  - unfold calls_of. simpl. rewrite drop_all. tally.
  - cbn zeta. rewrite calls_of_cons, processReferrals_cons, issuer_calls_app.
    pose proof (step_accounting cfg env customerMap counters referral w) as Hstep.
    cbn zeta in Hstep.
    specialize (IH (processReferral cfg env customerMap counters referral w).1
                   (processReferral cfg env customerMap counters referral w).2).
    cbn zeta in IH. simpl length. lia.
Qed.

(** The outbound calls of a run: at most one ledger lookup per record,
    at most one reward call per lookup, and at most two commit calls (an
    insert and, on conflict, an update) per lookup. *)
Theorem run_calls_are_bounded cfg env customerMap referralData :
  ∀ counters w,
    let calls :=
      calls_of (processReferrals cfg env customerMap counters referralData) w in
    ledger_lookups calls ≤ length referralData ∧
    issuer_calls calls ≤ ledger_lookups calls ∧
    ledger_commits calls ≤ 2 * ledger_lookups calls.
Proof.
  induction referralData as [|referral referralData IH]; intros counters w.
  - unfold calls_of. simpl. rewrite drop_all. tally.
  - cbn zeta. rewrite calls_of_cons.
    rewrite issuer_calls_app, ledger_lookups_app, ledger_commits_app.
    pose proof (step_accounting cfg env customerMap counters referral w) as Hstep.
    cbn zeta in Hstep.
    specialize (IH (processReferral cfg env customerMap counters referral w).1
                   (processReferral cfg env customerMap counters referral w).2).
    cbn zeta in IH. simpl length. lia.
Qed.

End Accounting.

(** ** What gets recorded *)

Section Recording.
Implicit Types (cfg : Config) (env : Env) (w : World)
  (customerMap : gmap Z Candidate) (counters : Counters)
  (referral : Referral.t).







End Recording.
